(** * Optimistic-concurrency vote ledger of blogmaxxer-image-api

    A shallow embedding of [api/vote.js] (the version with retry logic),
    [api/unvote.js] and [api/votes.js]: the two JSON documents, the
    in-process rate limiter, the calls made to the GitHub contents API, and
    the retry loops built around them.

    Conventions of the embedding.
    - JSON numbers (vote counts, [Date.now()] timestamps) are integers far
      below 2^53, so JavaScript arithmetic on them is exact: they are [Z].
    - A JavaScript object used as a dictionary is a [gmap] over its own
      properties; item ids and identity hashes are ordinary keys (no
      [Object.prototype] member names).
    - An [async] function is a tree of requests ([Prog]): every [await] of an
      octokit call, of a timer or a reading of the clock is a node whose
      children are indexed by the answer the environment gives. *)

From stdpp Require Import gmap strings list fin_maps.
From Stdlib Require Import ZArith Lia Ascii.

Local Open Scope Z_scope.

(** ** Configuration constants *)

(** [const RATE_LIMIT_WINDOW = 60 * 60 * 1000; // 1 hour] *)
Definition RATE_LIMIT_WINDOW : Z := 60 * 60 * 1000.
(** [const MAX_VOTES_PER_WINDOW = 10;] *)
Definition MAX_VOTES_PER_WINDOW : Z := 10.
(** [const MAX_RETRIES = 3;] *)
Definition MAX_RETRIES : nat := 3.

(** [DATA_PATH = 'data/data.json'] and [VOTES_PATH = 'data/votes.json'] are
    the only two paths the functions ever use. *)
Inductive Path := DATA_PATH | VOTES_PATH.

(** ** Data model *)

(** One element of [blogData.entries]: [{ id, votes, ...fields }].  [votes]
    may be missing ([None]); the remaining fields are opaque. *)
Record Entry := mkEntry {
  id : string;
  votes : option Z;
  other : list (string * string)
}.

(** The Aggregate document [{ entries: [...], ...fields }]; whatever else
    the document holds at top level is opaque. *)
Record BlogData := mkBlogData {
  entries : list Entry;
  extra : list (string * string)
}.

(** The Ledger document [{ votes: { [blogId]: { [ipHash]: timestamp } } }];
    [votesOf d] is [d.votes]. *)
Record VotesData := mkVotesData { votesOf : gmap string (gmap string Z) }.

(** What [JSON.parse] / [JSON.stringify] exchange with the store. *)
Inductive Content :=
| DataJson (d : BlogData)
| VotesJson (v : VotesData).

(** The blob sha GitHub returns with a file: an opaque version token. *)
Definition Sha := nat.

(** A JavaScript error object as far as the code looks at it: [err.status]
    (absent on a plain [Error] or [TypeError]) and [err.message]. *)
Record Err := mkErr { status : option Z; message : string }.

(** [new Error(msg)] *)
Definition Error (msg : string) : Err := mkErr None msg.

(** [err.status === 409] and [err.status === 404] *)
Definition has_status (n : Z) (err : Err) : bool :=
  match status err with Some s => s =? n | None => false end.

(** Truthiness of a number read from a dictionary ([undefined] and [0] are
    falsy). *)
Definition truthy (v : option Z) : bool :=
  match v with Some n => negb (n =? 0) | None => false end.

(** ** Requests to the outside world *)

(** Answer of [octokit.repos.getContent]. *)
Inductive GetResp :=
| GotFile (c : Content) (sha : Sha)
| GetFailed (err : Err).

(** Answer of [octokit.repos.createOrUpdateFileContents]. *)
Inductive PutResp :=
| PutDone
| PutFailed (err : Err).

(** An asynchronous computation returning [R] or throwing an [Err]. *)
Inductive Prog (R : Type) : Type :=
| Ret (r : R)
| Throw (err : Err)
| GetContent (path : Path) (k : GetResp -> Prog R)
| PutContent (path : Path) (c : Content) (sha : option Sha) (msg : string)
             (k : PutResp -> Prog R)
| SetTimeout (ms : Z) (k : Prog R)
| DateNow (k : Z -> Prog R).

Arguments Ret {R} r.
Arguments Throw {R} err.
Arguments GetContent {R} path k.
Arguments PutContent {R} path c sha msg k.
Arguments SetTimeout {R} ms k.
Arguments DateNow {R} k.

Fixpoint bind {A B} (p : Prog A) (f : A -> Prog B) : Prog B :=
  match p with
  | Ret r => f r
  | Throw err => Throw err
  | GetContent path k => GetContent path (fun r => bind (k r) f)
  | PutContent path c sha msg k => PutContent path c sha msg (fun r => bind (k r) f)
  | SetTimeout ms k => SetTimeout ms (bind k f)
  | DateNow k => DateNow (fun t => bind (k t) f)
  end.

(** [try { p } catch (err) { h err }] *)
Fixpoint catch {A} (p : Prog A) (h : Err -> Prog A) : Prog A :=
  match p with
  | Ret r => Ret r
  | Throw err => h err
  | GetContent path k => GetContent path (fun r => catch (k r) h)
  | PutContent path c sha msg k => PutContent path c sha msg (fun r => catch (k r) h)
  | SetTimeout ms k => SetTimeout ms (catch k h)
  | DateNow k => DateNow (fun t => catch (k t) h)
  end.

Notation "'await' x ':=' p 'in' q" := (bind p (fun x => q))
  (at level 10, x pattern, p at level 100, q at level 200).

(** A promise that has settled. *)
Definition settle {A} (p : Prog A) : Prog (Err + A) :=
  catch (await x := p in Ret (inr x)) (fun err => Ret (inl err)).

(** [await Promise.all([p, q])]: both calls are started, in this order,
    whatever becomes of the other one; the result is the pair of values, or
    a rejection when one of them rejects (that of [p] when both do, requests
    being answered in the order they were sent). *)
Definition Promise_all {A B} (p : Prog A) (q : Prog B) : Prog (A * B) :=
  await a := settle p in
  await b := settle q in
  match a, b with
  | inl err, _ => Throw err
  | _, inl err => Throw err
  | inr x, inr y => Ret (x, y)
  end.

(** ** Helpers of [vote.js] and [unvote.js] *)

(** The object [{ content, sha }] returned by [getGitHubFile]. *)
Record File := mkFile { content : option Content; sha : option Sha }.

(** [async function getGitHubFile(octokit, path)]: a 404 is the file
    [{ content: null, sha: null }], any other failure is rethrown. *)
Definition getGitHubFile (path : Path) : Prog File :=
  GetContent path (fun r =>
    match r with
    | GotFile c s => Ret (mkFile (Some c) (Some s))
    | GetFailed err =>
        if has_status 404 err then Ret (mkFile None None) else Throw err
    end).

(** [async function updateGitHubFile(octokit, path, content, sha, message,
    retryCount = 0)].  The recursion is on [left = MAX_RETRIES - retryCount],
    so that [retryCount < MAX_RETRIES] reads [left = S _]. *)
Fixpoint updateGitHubFile_left (left : nat) (path : Path) (c : Content)
    (sha0 : option Sha) (msg : string) : Prog unit :=
  PutContent path c sha0 msg (fun r =>
    match r with
    | PutDone => Ret tt
    | PutFailed err =>
        match left with
        | S left' =>
            if has_status 409 err then
              SetTimeout 500 (
                await freshFile := getGitHubFile path in
                updateGitHubFile_left left' path c (sha freshFile) msg)
            else Throw err
        | O => Throw err
        end
    end).

Definition updateGitHubFile (path : Path) (c : Content) (sha0 : option Sha)
    (msg : string) (retryCount : nat) : Prog unit :=
  updateGitHubFile_left (MAX_RETRIES - retryCount)%nat path c sha0 msg.

(** What [processVote] and [processUnvote] return (as opposed to throw). *)
Inductive Result :=
| alreadyVoted                 (* { error: 'You have already voted ...', alreadyVoted: true, status: 400 } *)
| notVoted                     (* { error: 'You have not voted ...', notVoted: true, status: 400 } *)
| success (newVoteCount : Z).  (* { success: true, newVoteCount, message } *)

(** [blogData.entries.find(e => e.id === blogId)]: the first match, with its
    position since the code then assigns through the reference. *)
Definition find_entry (blogId : string) (es : list Entry) : option (nat * Entry) :=
  list_find (fun e => id e = blogId) es.

(** [blogEntry.votes = v] *)
Definition set_votes (e : Entry) (v : Z) : Entry :=
  mkEntry (id e) (Some v) (other e).

(** [blogData] after an assignment through [blogEntry], the element at
    position [i] of [blogData.entries]. *)
Definition with_entry (blogData : BlogData) (i : nat) (e : Entry) : BlogData :=
  mkBlogData (<[i := e]> (entries blogData)) (extra blogData).

(** [blogEntry.votes || 0] *)
Definition votes_or_0 (e : Entry) : Z := default 0 (votes e).

(** [votesData.votes[blogId]?.[ipHash]] *)
Definition ledger_lookup (v : gmap string (gmap string Z)) (blogId ipHash : string)
    : option Z :=
  v !! blogId ≫= fun m => m !! ipHash.

(** The [try] block of [processVote], one attempt. *)
Definition processVote_attempt (blogId ipHash : string) : Prog Result :=
  await (dataFile, votesFile) :=
    Promise_all (getGitHubFile DATA_PATH) (getGitHubFile VOTES_PATH) in
  match content dataFile with
  | None => Throw (Error "Data file not found")
  | Some (VotesJson _) =>
      Throw (Error "Cannot read properties of undefined (reading 'find')")
  | Some (DataJson blogData) =>
      (* const votesData = votesFile.content || { votes: {} } *)
      let votesContent := default (VotesJson (mkVotesData ∅)) (content votesFile) in
      match find_entry blogId (entries blogData) with
      | None => Throw (Error "Blog not found")
      | Some (i, blogEntry) =>
          match votesContent with
          | DataJson _ => Throw (Error "Cannot read properties of undefined")
          | VotesJson votesData =>
              (* if (!votesData.votes[blogId]) votesData.votes[blogId] = {} *)
              let forBlog := default ∅ (votesOf votesData !! blogId) in
              if truthy (forBlog !! ipHash) then Ret alreadyVoted
              else
                DateNow (fun now =>
                  let votesData' :=
                    mkVotesData (<[blogId := <[ipHash := now]> forBlog]> (votesOf votesData)) in
                  let blogEntry' := set_votes blogEntry (votes_or_0 blogEntry + 1) in
                  let blogData' := with_entry blogData i blogEntry' in
                  await _ := updateGitHubFile VOTES_PATH (VotesJson votesData')
                               (sha votesFile) ("Vote recorded for " +:+ blogId) 0 in
                  await _ := updateGitHubFile DATA_PATH (DataJson blogData')
                               (sha dataFile) ("Update vote count for " +:+ blogId) 0 in
                  Ret (success (votes_or_0 blogEntry + 1)))
          end
      end
  end.

(** The [while (attempt < MAX_RETRIES)] loop shared by [processVote] and
    [processUnvote], on [left = MAX_RETRIES - attempt]. *)
Fixpoint retry_loop (left : nat) (body : Prog Result) (giveUp : string) : Prog Result :=
  match left with
  | O => Throw (Error giveUp)
  | S left' =>
      catch body (fun err =>
        let attempt := (MAX_RETRIES - left')%nat in   (* attempt++ *)
        if has_status 409 err && (attempt <? MAX_RETRIES)%nat then
          SetTimeout (1000 * Z.of_nat attempt) (retry_loop left' body giveUp)
        else Throw err)
  end.

(** [async function processVote(octokit, blogId, ipHash)] *)
Definition processVote (blogId ipHash : string) : Prog Result :=
  retry_loop MAX_RETRIES (processVote_attempt blogId ipHash)
    "Failed to process vote after multiple retries".

(** The [try] block of [processUnvote], one attempt. *)
Definition processUnvote_attempt (blogId ipHash : string) : Prog Result :=
  await (dataFile, votesFile) :=
    Promise_all (getGitHubFile DATA_PATH) (getGitHubFile VOTES_PATH) in
  match content dataFile with
  | None => Throw (Error "Data file not found")
  | Some dataContent =>
      match content votesFile with
      | None => Throw (Error "Votes file not found")
      | Some votesContent =>
          match dataContent with
          | VotesJson _ =>
              Throw (Error "Cannot read properties of undefined (reading 'find')")
          | DataJson blogData =>
              match find_entry blogId (entries blogData) with
              | None => Throw (Error "Blog not found")
              | Some (i, blogEntry) =>
                  match votesContent with
                  | DataJson _ => Throw (Error "Cannot read properties of undefined")
                  | VotesJson votesData =>
                      if negb (truthy (ledger_lookup (votesOf votesData) blogId ipHash))
                      then Ret notVoted
                      else
                        (* delete votesData.votes[blogId][ipHash] *)
                        let forBlog := default ∅ (votesOf votesData !! blogId) in
                        let votesData' :=
                          mkVotesData
                            (<[blogId := delete ipHash forBlog]> (votesOf votesData)) in
                        let newCount := Z.max 0 (votes_or_0 blogEntry - 1) in
                        let blogEntry' := set_votes blogEntry newCount in
                        let blogData' :=
                          with_entry blogData i blogEntry' in
                        await _ := updateGitHubFile VOTES_PATH (VotesJson votesData')
                                     (sha votesFile) ("Vote removed for " +:+ blogId) 0 in
                        await _ := updateGitHubFile DATA_PATH (DataJson blogData')
                                     (sha dataFile)
                                     ("Update vote count for " +:+ blogId +:+ " (removed)") 0 in
                        Ret (success newCount)
                  end
              end
          end
      end
  end.

(** [async function processUnvote(octokit, blogId, ipHash)] *)
Definition processUnvote (blogId ipHash : string) : Prog Result :=
  retry_loop MAX_RETRIES (processUnvote_attempt blogId ipHash)
    "Failed to process unvote after multiple retries".

(** ** Running a computation against an environment *)

(** One answered request. *)
Inductive Ev :=
| EvGet (path : Path) (r : GetResp)
| EvPut (path : Path) (c : Content) (sha : option Sha) (msg : string) (r : PutResp)
| EvSleep (ms : Z)
| EvNow (t : Z).

Inductive Outcome (R : Type) :=
| Returned (r : R)
| Thrown (err : Err).

Arguments Returned {R} r.
Arguments Thrown {R} err.

(** An environment with state [S]: how it answers each request.  Nothing
    is assumed of it: other writers, failures and a clock that jumps are all
    environments. *)
Record World (S : Type) := mkWorld {
  on_get : Path -> S -> GetResp * S;
  on_put : Path -> Content -> option Sha -> string -> S -> PutResp * S;
  on_sleep : Z -> S -> S;
  on_now : S -> Z * S
}.

Arguments on_get {S} w. Arguments on_put {S} w.
Arguments on_sleep {S} w. Arguments on_now {S} w.

Fixpoint exec {S R} (w : World S) (p : Prog R) (s : S) : Outcome R * S * list Ev :=
  match p with
  | Ret r => (Returned r, s, [])
  | Throw err => (Thrown err, s, [])
  | GetContent path k =>
      let '(r, s1) := on_get w path s in
      let '(o, s2, tr) := exec w (k r) s1 in (o, s2, EvGet path r :: tr)
  | PutContent path c sha0 msg k =>
      let '(r, s1) := on_put w path c sha0 msg s in
      let '(o, s2, tr) := exec w (k r) s1 in (o, s2, EvPut path c sha0 msg r :: tr)
  | SetTimeout ms k =>
      let '(o, s2, tr) := exec w k (on_sleep w ms s) in (o, s2, EvSleep ms :: tr)
  | DateNow k =>
      let '(t, s1) := on_now w s in
      let '(o, s2, tr) := exec w (k t) s1 in (o, s2, EvNow t :: tr)
  end.

Definition outcome_of {S R} (x : Outcome R * S * list Ev) : Outcome R := x.1.1.
Definition state_of {S R} (x : Outcome R * S * list Ev) : S := x.1.2.
Definition trace_of {S R} (x : Outcome R * S * list Ev) : list Ev := x.2.

(** [always p Q]: whatever the environment answers, the trace and the
    outcome of [p] satisfy [Q]. *)
Fixpoint always {R} (p : Prog R) (Q : list Ev -> Outcome R -> Prop) : Prop :=
  match p with
  | Ret r => Q [] (Returned r)
  | Throw err => Q [] (Thrown err)
  | GetContent path k => forall r, always (k r) (fun tr => Q (EvGet path r :: tr))
  | PutContent path c sha0 msg k =>
      forall r, always (k r) (fun tr => Q (EvPut path c sha0 msg r :: tr))
  | SetTimeout ms k => always k (fun tr => Q (EvSleep ms :: tr))
  | DateNow k => forall t, always (k t) (fun tr => Q (EvNow t :: tr))
  end.

(** ** The document store *)

(** Modelled from the spec: the Versioned Document Store is GitHub's contents
    API, an external service.  [get] returns content and version or
    not-found; [put] succeeds when the expected version is the current one (or
    when the file is created), answers 409 on a mismatch and 404 when a version
    is given for a file that does not exist.  Every successful write gives the
    file a version it never had.  The clock only moves while the caller
    sleeps. *)
Record Store := mkStore {
  data_file : option (Content * Sha);
  votes_file : option (Content * Sha);
  clock : Z
}.

Definition file_at (path : Path) (st : Store) : option (Content * Sha) :=
  match path with DATA_PATH => data_file st | VOTES_PATH => votes_file st end.

Definition set_file (path : Path) (f : Content * Sha) (st : Store) : Store :=
  match path with
  | DATA_PATH => mkStore (Some f) (votes_file st) (clock st)
  | VOTES_PATH => mkStore (data_file st) (Some f) (clock st)
  end.

(** The answer to a read of a file, and the [{ content, sha }] that
    [getGitHubFile] makes of it. *)
Definition resp_of_file (f : option (Content * Sha)) : GetResp :=
  match f with
  | Some (c, s) => GotFile c s
  | None => GetFailed (mkErr (Some 404) "Not Found")
  end.

Definition file_read (f : option (Content * Sha)) : File :=
  match f with
  | Some (c, s) => mkFile (Some c) (Some s)
  | None => mkFile None None
  end.

Definition store_get (path : Path) (st : Store) : GetResp * Store :=
  (resp_of_file (file_at path st), st).

(** The version a file gets when it is written next. *)
Definition next_sha (f : option (Content * Sha)) : Sha :=
  match f with Some (_, s) => S s | None => O end.

Definition store_put (path : Path) (c : Content) (sha0 : option Sha) (msg : string)
    (st : Store) : PutResp * Store :=
  match file_at path st, sha0 with
  | Some (_, cur), Some s =>
      if decide (s = cur) then (PutDone, set_file path (c, S cur) st)
      else (PutFailed (mkErr (Some 409) "Conflict"), st)
  | Some _, None => (PutFailed (mkErr (Some 409) "Conflict"), st)
  | None, None => (PutDone, set_file path (c, O) st)
  | None, Some _ => (PutFailed (mkErr (Some 404) "Not Found"), st)
  end.

Definition github : World Store :=
  mkWorld Store store_get store_put
    (fun ms st => mkStore (data_file st) (votes_file st) (clock st + ms))
    (fun st => (clock st, st)).

(** Two callers on one store: [sched] says whose next request is served
    ([true]: the first caller); when it runs out the first caller finishes,
    then the second. *)
Definition step {S R} (w : World S) (p : Prog R) (s : S) : Prog R * S :=
  match p with
  | Ret _ | Throw _ => (p, s)
  | GetContent path k => let '(r, s1) := on_get w path s in (k r, s1)
  | PutContent path c sha0 msg k =>
      let '(r, s1) := on_put w path c sha0 msg s in (k r, s1)
  | SetTimeout ms k => (k, on_sleep w ms s)
  | DateNow k => let '(t, s1) := on_now w s in (k t, s1)
  end.

Fixpoint interleave {S A B} (w : World S) (sched : list bool)
    (p : Prog A) (q : Prog B) (s : S) : Outcome A * Outcome B * S :=
  match sched with
  | [] =>
      let '(oa, s1, _) := exec w p s in
      let '(ob, s2, _) := exec w q s1 in (oa, ob, s2)
  | true :: sched' => let '(p', s1) := step w p s in interleave w sched' p' q s1
  | false :: sched' => let '(q', s1) := step w q s in interleave w sched' p q' s1
  end.

(** The count the Aggregate shows for an item and the Ledger's answer to
    "has this identity voted", read off a store. *)
Definition stored_entry (blogId : string) (st : Store) : option Entry :=
  match data_file st with
  | Some (DataJson d, _) => snd <$> find_entry blogId (entries d)
  | _ => None
  end.

Definition stored_ledger (st : Store) : gmap string (gmap string Z) :=
  match votes_file st with
  | Some (VotesJson v, _) => votesOf v
  | _ => ∅
  end.

(** ** Scenario of the documentation: [{entries:[{id:"a1",votes:3}]}] and
    [{votes:{}}]. *)
Definition a1_store : Store :=
  mkStore (Some (DataJson (mkBlogData [mkEntry "a1" (Some 3) [("title", "A one")]] []), 7%nat))
          (Some (VotesJson (mkVotesData ∅), 4%nat))
          1700000000000.

(** ** The rate limiter of [vote.js] *)

(** The object kept per identity in [rateLimitMap]. *)
Record Limits := mkLimits { count : Z; windowStart : Z }.

(** [function checkRateLimit(ipHash)], with the clock reading [now] and the
    module-level [rateLimitMap] passed explicitly; it returns the answer and
    the map as the call leaves it.  [userLimits] is the stored object itself
    when there is one, so the reset of an expired window is visible in the map
    even before [rateLimitMap.set]. *)
Definition checkRateLimit (now : Z) (ipHash : string)
    (rateLimitMap : gmap string Limits) : bool * gmap string Limits :=
  let stored := rateLimitMap !! ipHash in
  let userLimits := default (mkLimits 0 now) stored in
  let expired := now - windowStart userLimits >? RATE_LIMIT_WINDOW in
  let userLimits := if expired then mkLimits 0 now else userLimits in
  let rateLimitMap :=
    match stored with
    | Some _ => if expired then <[ipHash := userLimits]> rateLimitMap else rateLimitMap
    | None => rateLimitMap
    end in
  if count userLimits >=? MAX_VOTES_PER_WINDOW then (false, rateLimitMap)
  else
    (true,
     <[ipHash := mkLimits (count userLimits + 1) (windowStart userLimits)]> rateLimitMap).

(** The window a call at [now] works with: the stored one, or a new one when
    there is none or the stored one has expired. *)
Definition current_window (now : Z) (stored : option Limits) : Limits :=
  let userLimits := default (mkLimits 0 now) stored in
  if now - windowStart userLimits >? RATE_LIMIT_WINDOW then mkLimits 0 now
  else userLimits.

(** A series of calls for one identity at the given clock readings. *)
Fixpoint allow_calls (times : list Z) (ipHash : string)
    (rateLimitMap : gmap string Limits) : list bool * gmap string Limits :=
  match times with
  | [] => ([], rateLimitMap)
  | now :: times' =>
      let '(ok, m1) := checkRateLimit now ipHash rateLimitMap in
      let '(oks, m2) := allow_calls times' ipHash m1 in
      (ok :: oks, m2)
  end.

(** ** The HTTP handlers *)

(** What a handler looks at in [req]: the method, [req.body.blogId] and the
    address [getRealIP(req)] extracts from the proxy headers. *)
Record Request := mkRequest {
  method : string;
  blogId_of : option string;
  realIP : string
}.

(** One element of the array [votes.js] answers with. *)
Record VoteView := mkVoteView { view_id : string; view_votes : Z; userVoted : bool }.

Inductive Body :=
| ErrorBody (error : string)                    (* { error } *)
| ErrorDetails (error : string) (details : string)  (* { error, details } *)
| RateLimited (retryAfter : Z)                  (* { error: 'Rate limit exceeded...', retryAfter } *)
| ResultBody (r : Result)                       (* the object processVote returned *)
| EntriesBody (vs : list VoteView).             (* { entries: [...] } *)

Inductive Response :=
| End_ (code : Z)                (* res.status(code).end() *)
| Json (code : Z) (b : Body).    (* res.status(code).json(b) *)

(** [votes.js] has its own [getGitHubFile], which returns the parsed content
    or [null]. *)
Definition getGitHubFile_content (path : Path) : Prog (option Content) :=
  GetContent path (fun r =>
    match r with
    | GotFile c _ => Ret (Some c)
    | GetFailed err => if has_status 404 err then Ret None else Throw err
    end).

Section Handlers.

(** [hashIP(ip)]: SHA-256 of the salted address, from node's [crypto]. *)
Variable hashIP : string -> string.

(** [module.exports] of [vote.js] (the version with retries), threading
    [rateLimitMap]. *)
Definition vote_handler (req : Request) (rateLimitMap : gmap string Limits)
    : Prog (Response * gmap string Limits) :=
  if String.eqb (method req) "OPTIONS" then Ret (End_ 200, rateLimitMap)
  else if negb (String.eqb (method req) "POST") then
    Ret (Json 405 (ErrorBody "Method not allowed"), rateLimitMap)
  else
    match blogId_of req with
    | None | Some "" => Ret (Json 400 (ErrorBody "blogId is required"), rateLimitMap)
    | Some blogId =>
        let ipHash := hashIP (realIP req) in
        DateNow (fun now =>
          let '(ok, rateLimitMap') := checkRateLimit now ipHash rateLimitMap in
          if negb ok then
            Ret (Json 429 (RateLimited (RATE_LIMIT_WINDOW / 1000)), rateLimitMap')
          else
            await res :=
              catch
                (await result := processVote blogId ipHash in
                 match result with
                 | success _ => Ret (Json 200 (ResultBody result))
                 | _ => Ret (Json 400 (ResultBody result))
                 end)
                (fun err =>
                   Ret (Json 500 (ErrorDetails "Failed to process vote" (message err)))) in
            Ret (res, rateLimitMap'))
    end.

(** [module.exports] of [unvote.js]. *)
Definition unvote_handler (req : Request) : Prog Response :=
  if String.eqb (method req) "OPTIONS" then Ret (End_ 200)
  else if negb (String.eqb (method req) "POST") then
    Ret (Json 405 (ErrorBody "Method not allowed"))
  else
    match blogId_of req with
    | None | Some "" => Ret (Json 400 (ErrorBody "blogId is required"))
    | Some blogId =>
        let ipHash := hashIP (realIP req) in
        catch
          (await result := processUnvote blogId ipHash in
           match result with
           | success _ => Ret (Json 200 (ResultBody result))
           | _ => Ret (Json 400 (ResultBody result))
           end)
          (fun err =>
             Ret (Json 500 (ErrorDetails "Failed to process unvote" (message err))))
    end.

(** The arrow function mapped over [blogData.entries] in [votes.js]. *)
Definition vote_view (votes_ : gmap string (gmap string Z)) (ipHash : string)
    (entry : Entry) : VoteView :=
  mkVoteView (id entry) (votes_or_0 entry)
    (if truthy (ledger_lookup votes_ (id entry) ipHash) then true else false).

(** [module.exports] of [votes.js]. *)
Definition votes_handler (req : Request) : Prog Response :=
  if String.eqb (method req) "OPTIONS" then Ret (End_ 200)
  else if negb (String.eqb (method req) "GET") then
    Ret (Json 405 (ErrorBody "Method not allowed"))
  else
    catch
      (let ipHash := hashIP (realIP req) in
       await (blogData, votesData) :=
         Promise_all (getGitHubFile_content DATA_PATH)
                     (getGitHubFile_content VOTES_PATH) in
       match blogData with
       | None => Ret (Json 500 (ErrorBody "Data file not found"))
       | Some blogContent =>
           (* const votes = votesData?.votes || {} *)
           let votes_ :=
             match votesData with
             | Some (VotesJson v) => votesOf v
             | _ => ∅
             end in
           match blogContent with
           | VotesJson _ =>
               Throw (Error "Cannot read properties of undefined (reading 'map')")
           | DataJson d =>
               Ret (Json 200 (EntriesBody (vote_view votes_ ipHash <$> entries d)))
           end
       end)
      (fun err => Ret (Json 500 (ErrorDetails "Failed to fetch votes" (message err)))).

End Handlers.

(** ** Measures on traces *)

Definition is_put (ev : Ev) : bool :=
  match ev with EvPut _ _ _ _ _ => true | _ => false end.

(** Number of write requests sent to the store. *)
Fixpoint puts (tr : list Ev) : nat :=
  match tr with
  | [] => 0
  | ev :: tr' => ((if is_put ev then 1 else 0) + puts tr')%nat
  end.

(** The delays of the outer loop, in order: every timer but the fixed 500 ms
    one that precedes a version refresh inside [updateGitHubFile]. *)
Fixpoint backoffs (tr : list Ev) : list Z :=
  match tr with
  | [] => []
  | EvSleep ms :: tr' => if ms =? 500 then backoffs tr' else ms :: backoffs tr'
  | _ :: tr' => backoffs tr'
  end.

(** An environment in which every write meets a conflict. *)
Definition contended : World Store :=
  mkWorld Store store_get
    (fun _ _ _ _ st => (PutFailed (mkErr (Some 409) "Conflict"), st))
    (on_sleep github) (on_now github).

(** An environment that always shows the documents of [a1_store], accepts
    a write of the Ledger at the fourth try and never one of the Aggregate. *)
Definition stubborn : World nat :=
  mkWorld nat
    (fun path n => (resp_of_file (file_at path a1_store), n))
    (fun path _ _ _ n =>
       match path with
       | VOTES_PATH =>
           if (n =? 3)%nat then (PutDone, O)
           else (PutFailed (mkErr (Some 409) "Conflict"), S n)
       | DATA_PATH => (PutFailed (mkErr (Some 409) "Conflict"), n)
       end)
    (fun _ n => n)
    (fun n => (clock a1_store, n)).

(** What [getGitHubFile] makes of an answer. *)
Definition file_of_resp (r : GetResp) : Err + File :=
  match r with
  | GotFile c s => inr (mkFile (Some c) (Some s))
  | GetFailed err => if has_status 404 err then inr (mkFile None None) else inl err
  end.

(** The requests [updateGitHubFile path c ...] may send: at most [np] writes
    among at most [nl] requests, all writes of [c] to [path], each retry
    preceded by the 500 ms timer and a read of [path]. *)
Definition bounded_write (path : Path) (c : Content) (np nl : nat)
    (tr : list Ev) : Prop :=
  (puts tr <= np)%nat /\
  (length tr <= nl)%nat /\
  backoffs tr = [] /\
  Forall (fun ev =>
    match ev with
    | EvPut path' c' _ _ _ => path' = path /\ c' = c
    | EvGet path' _ => path' = path
    | EvSleep ms => ms = 500
    | EvNow _ => False
    end) tr.

(** One call from [retryCount = 0]: at most [1 + MAX_RETRIES] writes. *)
Definition write_trace (path : Path) (c : Content) (tr : list Ev) : Prop :=
  bounded_write path c (1 + MAX_RETRIES) (1 + 3 * MAX_RETRIES) tr.

(** The shape of a run of [retry_loop MAX_RETRIES body]: one, two or three
    attempts, each but the last ended by a 409 and followed by the timer of
    [1000 * attempt] ms. *)
Definition three_attempts (P : list Ev -> Outcome Result -> Prop)
    (tr : list Ev) (o : Outcome Result) : Prop :=
  P tr o \/
  (exists t1 e1 t2,
     tr = t1 ++ EvSleep 1000 :: t2 /\
     P t1 (Thrown e1) /\ has_status 409 e1 = true /\ P t2 o) \/
  (exists t1 e1 t2 e2 t3,
     tr = t1 ++ EvSleep 1000 :: t2 ++ EvSleep 2000 :: t3 /\
     P t1 (Thrown e1) /\ has_status 409 e1 = true /\
     P t2 (Thrown e2) /\ has_status 409 e2 = true /\ P t3 o).

(** [d'] is [d] but for the [votes] field of the first entry whose id is
    [blogId]. *)
Definition differ_only_in_votes (blogId : string) (d d' : BlogData) : Prop :=
  extra d' = extra d /\
  length (entries d') = length (entries d) /\
  forall (j : nat) (e : Entry), entries d !! j = Some e ->
    exists e', entries d' !! j = Some e' /\
      id e' = id e /\ other e' = other e /\
      (votes e' <> votes e ->
         exists i, find_entry blogId (entries d) = Some (i, e) /\ j = i).

(** One attempt of [processVote] or [processUnvote] leaves the Aggregate
    alone but for the votes of the item: whatever it writes to [DATA_PATH] is
    the content its first request read there, changed in that field only. *)
Definition frame_attempt (blogId : string) (tr : list Ev) : Prop :=
  forall c' sha0 msg r, EvPut DATA_PATH c' sha0 msg r ∈ tr ->
    exists d s0 rest d',
      tr = EvGet DATA_PATH (GotFile (DataJson d) s0) :: rest /\
      c' = DataJson d' /\ differ_only_in_votes blogId d d'.

(** The two writes that end a successful attempt: the new Ledger, then the
    Aggregate with entry [i] given the count [n]. *)
Definition writes_run (d : BlogData) (i : nat) (e : Entry) (newVotes : Content)
    (n : Z) (tr : list Ev) (o : Outcome Result) : Prop :=
  exists trV trD,
    tr = trV ++ trD /\
    write_trace VOTES_PATH newVotes trV /\
    write_trace DATA_PATH (DataJson (with_entry d i (set_votes e n))) trD /\
    (o = Returned (success n) \/ exists err, o = Thrown err).

(** One attempt of [processVote] ([newCount e = (e.votes || 0) + 1]) or of
    [processUnvote] ([newCount e = Math.max(0, (e.votes || 0) - 1)]): the
    two reads, and then either nothing more and no success, or the clock
    reading (for a vote) and the two writes. *)
Definition attempt_run (blogId : string) (newCount : Entry -> Z)
    (tr : list Ev) (o : Outcome Result) : Prop :=
  exists r1 r2,
    (tr = [EvGet DATA_PATH r1; EvGet VOTES_PATH r2] /\
     forall n, o <> Returned (success n)) \/
    (exists d s1 i e mid newVotes rest,
       r1 = GotFile (DataJson d) s1 /\
       find_entry blogId (entries d) = Some (i, e) /\
       (mid = [] \/ exists now, mid = [EvNow now]) /\
       tr = EvGet DATA_PATH r1 :: EvGet VOTES_PATH r2 :: mid ++ rest /\
       writes_run d i e newVotes (newCount e) rest o).

(** The budget of one operation: each of at most [MAX_RETRIES] attempts
    writes two documents, each write being tried at most [1 + MAX_RETRIES]
    times; the [k] delays of the outer loop are 1000 ms times 1, ..., [k]. *)
Definition within_budget (tr : list Ev) : Prop :=
  (puts tr <= MAX_RETRIES * (2 * (1 + MAX_RETRIES)))%nat /\
  (length tr <= 71)%nat /\
  exists k, (k < MAX_RETRIES)%nat /\
    backoffs tr = (fun attempt => 1000 * Z.of_nat attempt) <$> seq 1 k.

(** ** One caller alone on the store

    The runs of [processVote] and [processUnvote] on [github] when nobody
    else writes, written out; [exec_processVote] and [exec_processUnvote]
    prove that they are the runs of the code. *)

(** The two reads that open every attempt. *)
Definition reads (st : Store) : list Ev :=
  [EvGet DATA_PATH (resp_of_file (data_file st));
   EvGet VOTES_PATH (resp_of_file (votes_file st))].

(** What one cast-vote does on the store when nobody else writes. *)
Definition vote_alone (blogId ipHash : string) (st : Store)
    : Outcome Result * Store * list Ev :=
  match data_file st with
  | None => (Thrown (Error "Data file not found"), st, reads st)
  | Some (VotesJson _, _) =>
      (Thrown (Error "Cannot read properties of undefined (reading 'find')"), st,
       reads st)
  | Some (DataJson d, s1) =>
      match find_entry blogId (entries d) with
      | None => (Thrown (Error "Blog not found"), st, reads st)
      | Some (i, e) =>
          match votes_file st with
          | Some (DataJson _, _) =>
              (Thrown (Error "Cannot read properties of undefined"), st, reads st)
          | _ =>
              if truthy (ledger_lookup (stored_ledger st) blogId ipHash)
              then (Returned alreadyVoted, st, reads st)
              else
                let n := votes_or_0 e + 1 in
                let v' := VotesJson (mkVotesData
                  (<[blogId := <[ipHash := clock st]>
                                 (default ∅ (stored_ledger st !! blogId))]>
                     (stored_ledger st))) in
                let d' := DataJson (with_entry d i (set_votes e n)) in
                (Returned (success n),
                 mkStore (Some (d', S s1)) (Some (v', next_sha (votes_file st)))
                         (clock st),
                 reads st ++
                 [EvNow (clock st);
                  EvPut VOTES_PATH v' (sha (file_read (votes_file st)))
                    ("Vote recorded for " +:+ blogId) PutDone;
                  EvPut DATA_PATH d' (Some s1)
                    ("Update vote count for " +:+ blogId) PutDone])
          end
      end
  end.

(** What one retract-vote does on the store when nobody else writes. *)
Definition unvote_alone (blogId ipHash : string) (st : Store)
    : Outcome Result * Store * list Ev :=
  match data_file st with
  | None => (Thrown (Error "Data file not found"), st, reads st)
  | Some (dc, s1) =>
      match votes_file st with
      | None => (Thrown (Error "Votes file not found"), st, reads st)
      | Some (vc, s2) =>
          match dc with
          | VotesJson _ =>
              (Thrown (Error "Cannot read properties of undefined (reading 'find')"),
               st, reads st)
          | DataJson d =>
              match find_entry blogId (entries d) with
              | None => (Thrown (Error "Blog not found"), st, reads st)
              | Some (i, e) =>
                  match vc with
                  | DataJson _ =>
                      (Thrown (Error "Cannot read properties of undefined"), st, reads st)
                  | VotesJson v =>
                      if negb (truthy (ledger_lookup (votesOf v) blogId ipHash))
                      then (Returned notVoted, st, reads st)
                      else
                        let n := Z.max 0 (votes_or_0 e - 1) in
                        let v' := VotesJson (mkVotesData
                          (<[blogId := delete ipHash (default ∅ (votesOf v !! blogId))]>
                             (votesOf v))) in
                        let d' :=
                          DataJson (with_entry d i (set_votes e n)) in
                        (Returned (success n),
                         mkStore (Some (d', S s1)) (Some (v', S s2)) (clock st),
                         reads st ++
                         [EvPut VOTES_PATH v' (Some s2)
                            ("Vote removed for " +:+ blogId) PutDone;
                          EvPut DATA_PATH d' (Some s1)
                            ("Update vote count for " +:+ blogId +:+ " (removed)")
                            PutDone])
                  end
              end
          end
      end
  end.

(** The scenario without a Ledger document. *)
Definition no_ledger_store : Store :=
  mkStore (data_file a1_store) None (clock a1_store).


(** ** [getRealIP] *)

(** The two proxy headers [getRealIP] looks at in [req.headers].  Node hands
    header values over as strings of Latin-1 characters, one [ascii] each. *)
Record Headers := mkHeaders {
  x_forwarded_for : option string;
  x_real_ip : option string
}.

(** [s.split(',')[0]] *)
Fixpoint before_comma (s : string) : string :=
  match s with
  | EmptyString => EmptyString
  | String c s' => if Ascii.eqb c ","%char then EmptyString else String c (before_comma s')
  end.

(** The characters [String.prototype.trim] removes, among those below 256:
    TAB, LF, VT, FF, CR, SP and NBSP. *)
Definition is_space (c : ascii) : bool :=
  let n := N_of_ascii c in
  ((9 <=? n) && (n <=? 13) || (n =? 32) || (n =? 160))%N.

Fixpoint trim_start (s : string) : string :=
  match s with
  | EmptyString => EmptyString
  | String c s' => if is_space c then trim_start s' else s
  end.

Fixpoint trim_end (s : string) : string :=
  match s with
  | EmptyString => EmptyString
  | String c s' =>
      match trim_end s' with
      | EmptyString => if is_space c then EmptyString else String c EmptyString
      | t => String c t
      end
  end.

(** [s.trim()] *)
Definition trim (s : string) : string := trim_end (trim_start s).

(** [a || b] on strings: the empty string is falsy. *)
Definition or_else (a b : string) : string :=
  match a with EmptyString => b | _ => a end.

(** [function getRealIP(req)] of [vote.js], [unvote.js] and [votes.js]:
    [req.headers['x-forwarded-for']?.split(',')[0].trim()
     || req.headers['x-real-ip'] || 'unknown'] *)
Definition getRealIP (h : Headers) : string :=
  or_else
    (or_else (default EmptyString (trim <$> (before_comma <$> x_forwarded_for h)))
             (default EmptyString (x_real_ip h)))
    "unknown".

(** The limiter's state is sane: every count is between 0 and the capacity. *)
Definition counts_in_range (m : gmap string Limits) : Prop :=
  forall ip l, m !! ip = Some l -> 0 <= count l <= MAX_VOTES_PER_WINDOW.

(** ** Writes that took effect *)

Definition same_path (a b : Path) : bool :=
  match a, b with
  | DATA_PATH, DATA_PATH | VOTES_PATH, VOTES_PATH => true
  | _, _ => false
  end.

(** Number of writes to [path] that the store accepted. *)
Fixpoint commits (path : Path) (tr : list Ev) : nat :=
  match tr with
  | [] => 0
  | EvPut path' _ _ _ PutDone :: tr' =>
      ((if same_path path' path then 1 else 0) + commits path tr')%nat
  | _ :: tr' => commits path tr'
  end.


(** What an attempt, and an operation, may have committed: the Aggregate
    once if it returned success and not at all otherwise. *)
Definition commits_once (max_ledger : nat) (tr : list Ev) (o : Outcome Result) : Prop :=
  commits DATA_PATH tr =
    match o with Returned (success _) => 1%nat | _ => 0%nat end /\
  (commits VOTES_PATH tr <= max_ledger)%nat.


(** ** How the handlers report what [processVote] did *)

Definition vote_response (o : Outcome Result) : Response :=
  match o with
  | Returned (success n) => Json 200 (ResultBody (success n))
  | Returned r => Json 400 (ResultBody r)
  | Thrown err => Json 500 (ErrorDetails "Failed to process vote" (message err))
  end.

(** ** The earlier [vote.js], without retries *)

(** [async function updateGitHubFile(octokit, path, content, sha, message)]
    of the earlier version: one request, its failure rethrown. *)
Definition updateGitHubFile_once (path : Path) (c : Content) (sha0 : option Sha)
    (msg : string) : Prog unit :=
  PutContent path c sha0 msg (fun r =>
    match r with
    | PutDone => Ret tt
    | PutFailed err => Throw err
    end).

(** What the earlier handler sends: a response of the later one, or its own
    [{ error: 'You have already voted for this blog', alreadyVoted: true }]
    with status 400 (the body has no [status] field). *)
Inductive EarlyResponse :=
| Sent (r : Response)
| SentAlreadyVoted.

(** The earlier handler from the two reads to its answer: what the later
    version moved into [processVote]. *)
Definition vote_early_body (blogId ipHash : string) : Prog EarlyResponse :=
  await (dataFile, votesFile) :=
    Promise_all (getGitHubFile DATA_PATH) (getGitHubFile VOTES_PATH) in
  match content dataFile with
  | None => Ret (Sent (Json 500 (ErrorBody "Data file not found")))
  | Some (VotesJson _) =>
      Throw (Error "Cannot read properties of undefined (reading 'find')")
  | Some (DataJson blogData) =>
      let votesContent := default (VotesJson (mkVotesData ∅)) (content votesFile) in
      match find_entry blogId (entries blogData) with
      | None => Ret (Sent (Json 404 (ErrorBody "Blog not found")))
      | Some (i, blogEntry) =>
          match votesContent with
          | DataJson _ => Throw (Error "Cannot read properties of undefined")
          | VotesJson votesData =>
              let forBlog := default ∅ (votesOf votesData !! blogId) in
              if truthy (forBlog !! ipHash) then Ret SentAlreadyVoted
              else
                DateNow (fun now =>
                  let votesData' :=
                    mkVotesData (<[blogId := <[ipHash := now]> forBlog]> (votesOf votesData)) in
                  let blogEntry' := set_votes blogEntry (votes_or_0 blogEntry + 1) in
                  let blogData' := with_entry blogData i blogEntry' in
                  await _ :=
                    Promise_all
                      (updateGitHubFile_once VOTES_PATH (VotesJson votesData')
                         (sha votesFile) ("Vote recorded for " +:+ blogId))
                      (updateGitHubFile_once DATA_PATH (DataJson blogData')
                         (sha dataFile) ("Update vote count for " +:+ blogId)) in
                  Ret (Sent (Json 200 (ResultBody (success (votes_or_0 blogEntry + 1))))))
          end
      end
  end.

Section EarlyHandler.

Variable hashIP : string -> string.

(** [module.exports] of the earlier [vote.js], threading [rateLimitMap]. *)
Definition vote_handler_early (req : Request) (rateLimitMap : gmap string Limits)
    : Prog (EarlyResponse * gmap string Limits) :=
  if String.eqb (method req) "OPTIONS" then Ret (Sent (End_ 200), rateLimitMap)
  else if negb (String.eqb (method req) "POST") then
    Ret (Sent (Json 405 (ErrorBody "Method not allowed")), rateLimitMap)
  else
    match blogId_of req with
    | None | Some "" =>
        Ret (Sent (Json 400 (ErrorBody "blogId is required")), rateLimitMap)
    | Some blogId =>
        let ipHash := hashIP (realIP req) in
        DateNow (fun now =>
          let '(ok, rateLimitMap') := checkRateLimit now ipHash rateLimitMap in
          if negb ok then
            Ret (Sent (Json 429 (RateLimited (RATE_LIMIT_WINDOW / 1000))), rateLimitMap')
          else
            await res :=
              catch (vote_early_body blogId ipHash)
                (fun err =>
                   Ret (Sent (Json 500
                          (ErrorDetails "Failed to process vote" (message err))))) in
            Ret (res, rateLimitMap'))
    end.

End EarlyHandler.

(** The run of [vote_early_body] on [github] when nobody else writes. *)
Definition early_alone (blogId ipHash : string) (st : Store)
    : Outcome EarlyResponse * Store * list Ev :=
  match data_file st with
  | None => (Returned (Sent (Json 500 (ErrorBody "Data file not found"))), st, reads st)
  | Some (VotesJson _, _) =>
      (Thrown (Error "Cannot read properties of undefined (reading 'find')"), st,
       reads st)
  | Some (DataJson d, s1) =>
      match find_entry blogId (entries d) with
      | None => (Returned (Sent (Json 404 (ErrorBody "Blog not found"))), st, reads st)
      | Some (i, e) =>
          match votes_file st with
          | Some (DataJson _, _) =>
              (Thrown (Error "Cannot read properties of undefined"), st, reads st)
          | _ =>
              if truthy (ledger_lookup (stored_ledger st) blogId ipHash)
              then (Returned SentAlreadyVoted, st, reads st)
              else
                let n := votes_or_0 e + 1 in
                let v' := VotesJson (mkVotesData
                  (<[blogId := <[ipHash := clock st]>
                                 (default ∅ (stored_ledger st !! blogId))]>
                     (stored_ledger st))) in
                let d' := DataJson (with_entry d i (set_votes e n)) in
                (Returned (Sent (Json 200 (ResultBody (success n)))),
                 mkStore (Some (d', S s1)) (Some (v', next_sha (votes_file st)))
                         (clock st),
                 reads st ++
                 [EvNow (clock st);
                  EvPut VOTES_PATH v' (sha (file_read (votes_file st)))
                    ("Vote recorded for " +:+ blogId) PutDone;
                  EvPut DATA_PATH d' (Some s1)
                    ("Update vote count for " +:+ blogId) PutDone])
          end
      end
  end.

(** The earlier handler sends either no write or one for each document, and
    waits for no timer. *)
Definition no_retry (tr : list Ev) : Prop :=
  (puts tr = 0%nat \/ puts tr = 2%nat) /\
  Forall (fun ev => match ev with EvSleep _ => False | _ => True end) tr.

(** ** Reasoning about every environment *)

Lemma always_mono {R} (p : Prog R) (Q Q' : list Ev -> Outcome R -> Prop) :
  (forall tr o, Q tr o -> Q' tr o) -> always p Q -> always p Q'.
Proof.
  revert Q Q'. induction p as [r|err|path k IH|path c s0 msg k IH|ms k IH|k IH];
    intros Q Q' HQ Hp; simpl in *.
  - by apply HQ.
  - by apply HQ.
  - intros r. eapply IH; [|apply Hp]. simpl. auto.
  - intros r. eapply IH; [|apply Hp]. simpl. auto.
  - eapply IH; [|apply Hp]. simpl. auto.
  - intros t. eapply IH; [|apply Hp]. simpl. auto.
Qed.

Lemma always_bind {A B} (p : Prog A) (f : A -> Prog B)
    (Q : list Ev -> Outcome B -> Prop) :
  always p (fun tr o =>
    match o with
    | Returned r => always (f r) (fun tr' => Q (tr ++ tr'))
    | Thrown err => Q tr (Thrown err)
    end) ->
  always (bind p f) Q.
Proof.
  revert Q. induction p as [r|err|path k IH|path c s0 msg k IH|ms k IH|k IH];
    intros Q Hp; simpl in *.
  - exact Hp.
  - exact Hp.
  - intros r. apply IH. eapply always_mono; [|apply Hp].
    intros tr [x|err]; simpl; auto.
  - intros r. apply IH. eapply always_mono; [|apply Hp].
    intros tr [x|err]; simpl; auto.
  - apply IH. eapply always_mono; [|apply Hp].
    intros tr [x|err]; simpl; auto.
  - intros t. apply IH. eapply always_mono; [|apply Hp].
    intros tr [x|err]; simpl; auto.
Qed.

Lemma always_catch {A} (p : Prog A) (h : Err -> Prog A)
    (Q : list Ev -> Outcome A -> Prop) :
  always p (fun tr o =>
    match o with
    | Returned r => Q tr (Returned r)
    | Thrown err => always (h err) (fun tr' => Q (tr ++ tr'))
    end) ->
  always (catch p h) Q.
Proof.
  revert Q. induction p as [r|err|path k IH|path c s0 msg k IH|ms k IH|k IH];
    intros Q Hp; simpl in *.
  - exact Hp.
  - exact Hp.
  - intros r. apply IH. eapply always_mono; [|apply Hp].
    intros tr [x|err]; simpl; auto.
  - intros r. apply IH. eapply always_mono; [|apply Hp].
    intros tr [x|err]; simpl; auto.
  - apply IH. eapply always_mono; [|apply Hp].
    intros tr [x|err]; simpl; auto.
  - intros t. apply IH. eapply always_mono; [|apply Hp].
    intros tr [x|err]; simpl; auto.
Qed.

(** What holds for every environment holds for each run. *)
Lemma always_exec {S R} (w : World S) (p : Prog R)
    (Q : list Ev -> Outcome R -> Prop) (s : S) :
  always p Q -> Q (trace_of (exec w p s)) (outcome_of (exec w p s)).
Proof.
  revert Q s. induction p as [r|err|path k IH|path c s0 msg k IH|ms k IH|k IH];
    intros Q s Hp; simpl in *.
  - exact Hp.
  - exact Hp.
  - destruct (on_get w path s) as [r s1].
    specialize (IH r _ s1 (Hp r)).
    destruct (exec w (k r) s1) as [[o s2] tr]. exact IH.
  - destruct (on_put w path c s0 msg s) as [r s1].
    specialize (IH r _ s1 (Hp r)).
    destruct (exec w (k r) s1) as [[o s2] tr]. exact IH.
  - specialize (IH _ (on_sleep w ms s) Hp).
    destruct (exec w k (on_sleep w ms s)) as [[o s2] tr]. exact IH.
  - destruct (on_now w s) as [t s1].
    specialize (IH t _ s1 (Hp t)).
    destruct (exec w (k t) s1) as [[o s2] tr]. exact IH.
Qed.

(** ** The rate limiter *)

Lemma checkRateLimit_fresh now ipHash (m : gmap string Limits) :
  m !! ipHash = None ->
  checkRateLimit now ipHash m = (true, <[ipHash := mkLimits 1 now]> m).
Proof.
  intros Hm. unfold checkRateLimit. rewrite Hm. simpl.
  replace (now - now) with 0 by lia. reflexivity.
Qed.

Lemma checkRateLimit_window now ipHash (m : gmap string Limits) c ws :
  m !! ipHash = Some (mkLimits c ws) ->
  now - ws <= RATE_LIMIT_WINDOW ->
  checkRateLimit now ipHash m =
    if c >=? MAX_VOTES_PER_WINDOW then (false, m)
    else (true, <[ipHash := mkLimits (c + 1) ws]> m).
Proof.
  intros Hm Hw. unfold checkRateLimit. rewrite Hm. simpl.
  destruct (now - ws >? RATE_LIMIT_WINDOW) eqn:E; [lia|]. reflexivity.
Qed.

Lemma checkRateLimit_expired now ipHash (m : gmap string Limits) l :
  m !! ipHash = Some l ->
  now - windowStart l > RATE_LIMIT_WINDOW ->
  checkRateLimit now ipHash m = (true, <[ipHash := mkLimits 1 now]> m).
Proof.
  intros Hm Hw. unfold checkRateLimit. rewrite Hm. simpl.
  destruct (now - windowStart l >? RATE_LIMIT_WINDOW) eqn:E; [|lia].
  simpl. by rewrite insert_insert_eq.
Qed.

Lemma ten_more_calls ipHash now (m : gmap string Limits) (rest : list Z) :
  m !! ipHash = Some (mkLimits 1 now) ->
  length rest = 10%nat ->
  Forall (fun t => t - now <= RATE_LIMIT_WINDOW) rest ->
  (allow_calls rest ipHash m).1 = replicate 9 true ++ [false].
Proof.
  intros Hm Hlen Hall.
  do 10 (destruct rest as [|? rest]; [discriminate|]).
  destruct rest; [|discriminate].
  repeat match goal with H : Forall _ (_ :: _) |- _ => inversion_clear H end.
  cbn [allow_calls].
  do 9 (erewrite checkRateLimit_window;
          [|first [exact Hm | apply lookup_insert_eq] | assumption];
        match goal with
        | |- context [?c >=? MAX_VOTES_PER_WINDOW] =>
            replace (c >=? MAX_VOTES_PER_WINDOW) with false
              by (unfold MAX_VOTES_PER_WINDOW; lia)
        end).
  erewrite checkRateLimit_window; [|apply lookup_insert_eq|assumption].
  reflexivity.
Qed.

Lemma checkRateLimit_full now ipHash (m : gmap string Limits) :
  count (current_window now (m !! ipHash)) >= MAX_VOTES_PER_WINDOW ->
  checkRateLimit now ipHash m = (false, m).
Proof.
  unfold current_window, checkRateLimit. intros Hfull.
  destruct (m !! ipHash) as [l|] eqn:Hm; simpl in *.
  - destruct (now - windowStart l >? RATE_LIMIT_WINDOW) eqn:E; simpl in *.
    + unfold MAX_VOTES_PER_WINDOW in Hfull. lia.
    + destruct (count l >=? MAX_VOTES_PER_WINDOW) eqn:E2; [reflexivity|lia].
  - replace (now - now) with 0 in * by lia. simpl in *.
    unfold MAX_VOTES_PER_WINDOW in Hfull. lia.
Qed.

Lemma checkRateLimit_room now ipHash (m : gmap string Limits) :
  count (current_window now (m !! ipHash)) < MAX_VOTES_PER_WINDOW ->
  checkRateLimit now ipHash m =
    (true,
     <[ipHash := mkLimits (count (current_window now (m !! ipHash)) + 1)
                          (windowStart (current_window now (m !! ipHash)))]> m).
Proof.
  unfold current_window, checkRateLimit. intros Hroom.
  destruct (m !! ipHash) as [l|] eqn:Hm; simpl in *.
  - destruct (now - windowStart l >? RATE_LIMIT_WINDOW) eqn:E; simpl in *.
    + by rewrite insert_insert_eq.
    + destruct (count l >=? MAX_VOTES_PER_WINDOW) eqn:E2; [lia|reflexivity].
  - replace (now - now) with 0 in * by lia. simpl. reflexivity.
Qed.

(** C5. The limiter counts in a fixed window of one hour with capacity ten:
    an expired window is first reset to [{count: 0, windowStart: now}]; with
    the count at capacity the call answers [false] and leaves the map as it
    was; otherwise it answers [true] and stores the count plus one.  Hence
    of eleven calls within one window the eleventh is refused, and a call
    after the window has elapsed is allowed and leaves the count at one. *)
Theorem checkRateLimit_fixed_window (now : Z) (ipHash : string)
    (m : gmap string Limits) :
  let stored := default (mkLimits 0 now) (m !! ipHash) in
  let cur :=
    if now - windowStart stored >? RATE_LIMIT_WINDOW then mkLimits 0 now else stored in
  RATE_LIMIT_WINDOW = 3600000 /\ MAX_VOTES_PER_WINDOW = 10 /\
  (count cur >= MAX_VOTES_PER_WINDOW -> checkRateLimit now ipHash m = (false, m)) /\
  (count cur < MAX_VOTES_PER_WINDOW ->
     checkRateLimit now ipHash m =
       (true, <[ipHash := mkLimits (count cur + 1) (windowStart cur)]> m)) /\
  (forall rest : list Z,
     (m !! ipHash = None \/
      exists l, m !! ipHash = Some l /\ now - windowStart l > RATE_LIMIT_WINDOW) ->
     length rest = 10%nat ->
     Forall (fun t => t - now <= RATE_LIMIT_WINDOW) rest ->
     (allow_calls (now :: rest) ipHash m).1 = replicate 10 true ++ [false]) /\
  (forall l, m !! ipHash = Some l -> now - windowStart l > RATE_LIMIT_WINDOW ->
     checkRateLimit now ipHash m = (true, <[ipHash := mkLimits 1 now]> m)).
Proof.
  intros stored cur. split; [reflexivity|]. split; [reflexivity|].
  split; [|split; [|split]].
  - apply checkRateLimit_full.
  - apply checkRateLimit_room.
  - intros rest Hstart Hlen Hall. cbn [allow_calls].
    assert (checkRateLimit now ipHash m = (true, <[ipHash := mkLimits 1 now]> m)) as ->.
    { destruct Hstart as [Hm|(l & Hm & Hl)];
        eauto using checkRateLimit_fresh, checkRateLimit_expired. }
    pose proof (ten_more_calls ipHash now (<[ipHash := mkLimits 1 now]> m) rest
                  (lookup_insert_eq _ _ _) Hlen Hall) as H.
    destruct (allow_calls rest ipHash _) as [oks m2]. simpl in *. by rewrite H.
  - intros l Hm Hl. by eapply checkRateLimit_expired.
Qed.

(** Ten calls by a new identity pass and the eleventh, a second later, does
    not; at capacity the map is left alone; an hour and more later the
    identity is let in again, with the count back at one. *)
Lemma checkRateLimit_example :
  (allow_calls (1700000000000 :: replicate 10 1700000001000) "h1" ∅).1 =
    replicate 10 true ++ [false] /\
  checkRateLimit 1700000001000 "h1" {["h1" := mkLimits 10 1700000000000]} =
    (false, {["h1" := mkLimits 10 1700000000000]}) /\
  checkRateLimit 1700000001000 "h1" {["h1" := mkLimits 3 1700000000000]} =
    (true, <["h1" := mkLimits 4 1700000000000]> {["h1" := mkLimits 3 1700000000000]}) /\
  checkRateLimit 1703600000001 "h1" {["h1" := mkLimits 10 1700000000000]} =
    (true, <["h1" := mkLimits 1 1703600000001]> {["h1" := mkLimits 10 1700000000000]}).
Proof.
  split; [|split; [|split]].
  - destruct (checkRateLimit_fixed_window 1700000000000 "h1" ∅)
      as (_ & _ & _ & _ & Heleven & _).
    apply Heleven.
    + left. reflexivity.
    + reflexivity.
    + repeat constructor; vm_compute; discriminate.
  - destruct (checkRateLimit_fixed_window 1700000001000 "h1"
                {["h1" := mkLimits 10 1700000000000]}) as (_ & _ & Hfull & _).
    apply Hfull. vm_compute. discriminate.
  - destruct (checkRateLimit_fixed_window 1700000001000 "h1"
                {["h1" := mkLimits 3 1700000000000]}) as (_ & _ & _ & Hroom & _).
    rewrite Hroom; vm_compute; reflexivity.
  - destruct (checkRateLimit_fixed_window 1703600000001 "h1"
                {["h1" := mkLimits 10 1700000000000]}) as (_ & _ & _ & _ & _ & Hexp).
    apply (Hexp (mkLimits 10 1700000000000)).
    + reflexivity.
    + vm_compute. reflexivity.
Defined.

(** ** [updateGitHubFile] as the source writes it

    With [retryCount] counting up: a 409 is retried while
    [retryCount < MAX_RETRIES], and the call with [retryCount = MAX_RETRIES]
    rethrows whatever it gets. *)

Lemma updateGitHubFile_retryCount path c sha0 msg retryCount :
  (retryCount < MAX_RETRIES)%nat ->
  updateGitHubFile path c sha0 msg retryCount =
    PutContent path c sha0 msg (fun r =>
      match r with
      | PutDone => Ret tt
      | PutFailed err =>
          if has_status 409 err then
            SetTimeout 500 (
              await freshFile := getGitHubFile path in
              updateGitHubFile path c (sha freshFile) msg (retryCount + 1))
          else Throw err
      end).
Proof.
  unfold MAX_RETRIES. intros H.
  destruct retryCount as [|[|[|n]]]; [reflexivity|reflexivity|reflexivity|lia].
Qed.

Lemma updateGitHubFile_last_retry path c sha0 msg :
  updateGitHubFile path c sha0 msg MAX_RETRIES =
    PutContent path c sha0 msg (fun r =>
      match r with
      | PutDone => Ret tt
      | PutFailed err => Throw err
      end).
Proof. reflexivity. Qed.

(** ** Measures of concatenated traces *)

Lemma puts_app tr tr' : puts (tr ++ tr') = (puts tr + puts tr')%nat.
Proof. induction tr as [|ev tr IH]; simpl; [done|]. rewrite IH. lia. Qed.

Lemma backoffs_app tr tr' : backoffs (tr ++ tr') = backoffs tr ++ backoffs tr'.
Proof.
  induction tr as [|ev tr IH]; simpl; [done|].
  destruct ev; auto. destruct (ms =? 500); simpl; by rewrite IH.
Qed.

(** ** [updateGitHubFile] *)

Lemma bounded_write_one path c sha0 msg r np nl :
  bounded_write path c (S np) (S nl) [EvPut path c sha0 msg r].
Proof.
  unfold bounded_write. simpl. split; [lia|]. split; [lia|].
  split; [reflexivity|]. repeat constructor.
Qed.

Lemma bounded_write_retry path c sha0 msg r r' np nl tr :
  bounded_write path c np nl tr ->
  bounded_write path c (S np) (3 + nl)
    (EvPut path c sha0 msg r :: EvSleep 500 :: EvGet path r' :: tr).
Proof.
  intros (Hp & Hl & Hb & Hf). unfold bounded_write. simpl.
  split; [lia|]. split; [lia|]. split; [exact Hb|].
  repeat constructor; auto.
Qed.

Lemma bounded_write_nil path c : bounded_write path c 0 0 [].
Proof. repeat split; simpl; auto. Qed.

Lemma bounded_write_le path c np nl np' nl' tr :
  (np <= np')%nat -> (nl <= nl')%nat ->
  bounded_write path c np nl tr -> bounded_write path c np' nl' tr.
Proof. intros ? ? (Hp & Hl & Hb & Hf). repeat split; auto; lia. Qed.

Lemma updateGitHubFile_left_trace left path c sha0 msg :
  always (updateGitHubFile_left left path c sha0 msg) (fun tr _ =>
    bounded_write path c (S left) (S (3 * left)) tr).
Proof.
  revert sha0. induction left as [|left IH]; intros sha0;
    cbn [updateGitHubFile_left always]; intros [|err]; cbn [always];
    try apply bounded_write_one.
  destruct (has_status 409 err); cbn [always]; [|apply bounded_write_one].
  cbn [getGitHubFile bind always].
  intros [c0 s0|err0]; cbn [bind always].
  - eapply always_mono; [|apply IH]. cbn beta. intros tr _ H.
    eapply bounded_write_le; [| |apply (bounded_write_retry _ _ _ _ _ _ _ _ _ H)]; lia.
  - destruct (has_status 404 err0); cbn [bind always].
    + eapply always_mono; [|apply IH]. cbn beta. intros tr _ H.
      eapply bounded_write_le; [| |apply (bounded_write_retry _ _ _ _ _ _ _ _ _ H)]; lia.
    + eapply bounded_write_le;
        [| |apply (bounded_write_retry _ _ _ _ _ _ _ _ _ (bounded_write_nil path c))];
        lia.
Qed.

Lemma updateGitHubFile_trace path c sha0 msg :
  always (updateGitHubFile path c sha0 msg 0) (fun tr _ => write_trace path c tr).
Proof. apply updateGitHubFile_left_trace. Qed.

(** ** The attempts *)

Lemma Promise_all_files p q :
  always (Promise_all (getGitHubFile p) (getGitHubFile q)) (fun tr o =>
    exists r1 r2, tr = [EvGet p r1; EvGet q r2] /\
      o = match file_of_resp r1, file_of_resp r2 with
          | inl err, _ => Thrown err
          | inr _, inl err => Thrown err
          | inr f1, inr f2 => Returned (f1, f2)
          end).
Proof.
  unfold Promise_all, settle, getGitHubFile. cbn [bind catch always].
  intros r1.
  destruct r1 as [c1 s1|err1]; [|destruct (has_status 404 err1) eqn:E1];
    cbn [bind catch always]; intros r2;
    (destruct r2 as [c2 s2|err2]; [|destruct (has_status 404 err2) eqn:E2]);
    cbn [bind catch always];
    eexists _, _; (split; [reflexivity|]);
    cbn [file_of_resp]; rewrite ?E1, ?E2; reflexivity.
Qed.

Lemma two_writes_run d i e newVotes n shaV shaD msgV msgD :
  always
    (await _ := updateGitHubFile VOTES_PATH newVotes shaV msgV 0 in
     await _ := updateGitHubFile DATA_PATH
                  (DataJson (with_entry d i (set_votes e n)))
                  shaD msgD 0 in
     Ret (success n))
    (writes_run d i e newVotes n).
Proof.
  apply always_bind. eapply always_mono; [|apply updateGitHubFile_trace].
  cbn beta. intros trV [[]|err] HV.
  - apply always_bind. eapply always_mono; [|apply updateGitHubFile_trace].
    cbn beta. intros trD [[]|err] HD.
    + cbn [always]. exists trV, trD. rewrite app_nil_r. auto.
    + exists trV, trD. repeat (split; [done|]). right. by exists err.
  - exists trV, []. rewrite app_nil_r.
    split; [done|]. split; [done|]. split; [|right; by exists err].
    apply bounded_write_le with 0%nat 0%nat; [lia|lia|apply bounded_write_nil].
Qed.

Ltac no_write_attempt r1 r2 :=
  exists r1, r2; left; split; [reflexivity|intros ?; discriminate].

Lemma processVote_attempt_run blogId ipHash :
  always (processVote_attempt blogId ipHash)
    (attempt_run blogId (fun e => votes_or_0 e + 1)).
Proof.
  unfold processVote_attempt. apply always_bind.
  eapply always_mono; [|apply Promise_all_files]. cbn beta.
  intros tr o (r1 & r2 & -> & ->).
  destruct (file_of_resp r2) as [err2|f2] eqn:E2.
  { destruct (file_of_resp r1); no_write_attempt r1 r2. }
  destruct r1 as [c1 s1|err1]; cbn [file_of_resp].
  2:{ destruct (has_status 404 err1); cbn [content always]; no_write_attempt (GetFailed err1) r2. }
  cbn [content sha].
  destruct c1 as [d|v1]; cbn [always]; [|no_write_attempt (GotFile (VotesJson v1) s1) r2].
  destruct (find_entry blogId (entries d)) as [[i e]|] eqn:Hfind; cbn [always];
    [|no_write_attempt (GotFile (DataJson d) s1) r2].
  destruct (default (VotesJson {| votesOf := ∅ |}) (content f2)) as [d2|v]; cbn [always];
    [no_write_attempt (GotFile (DataJson d) s1) r2|].
  destruct (truthy _); cbn [always]; [no_write_attempt (GotFile (DataJson d) s1) r2|].
  intros now. eapply always_mono; [|apply two_writes_run]. cbn beta.
  intros rest o Hrun. exists (GotFile (DataJson d) s1), r2. right.
  eexists d, s1, i, e, [EvNow now], _, rest.
  repeat (split; [try done; eauto|]). exact Hrun.
Qed.

Lemma processUnvote_attempt_run blogId ipHash :
  always (processUnvote_attempt blogId ipHash)
    (attempt_run blogId (fun e => Z.max 0 (votes_or_0 e - 1))).
Proof.
  unfold processUnvote_attempt. apply always_bind.
  eapply always_mono; [|apply Promise_all_files]. cbn beta.
  intros tr o (r1 & r2 & -> & ->).
  destruct (file_of_resp r2) as [err2|f2] eqn:E2.
  { destruct (file_of_resp r1); no_write_attempt r1 r2. }
  destruct r1 as [c1 s1|err1]; cbn [file_of_resp].
  2:{ destruct (has_status 404 err1); cbn [content always]; no_write_attempt (GetFailed err1) r2. }
  cbn [content sha].
  destruct (content f2) as [c2|]; cbn [always];
    [|no_write_attempt (GotFile c1 s1) r2].
  destruct c1 as [d|v1]; cbn [always]; [|no_write_attempt (GotFile (VotesJson v1) s1) r2].
  destruct (find_entry blogId (entries d)) as [[i e]|] eqn:Hfind; cbn [always];
    [|no_write_attempt (GotFile (DataJson d) s1) r2].
  destruct c2 as [d2|v]; cbn [always];
    [no_write_attempt (GotFile (DataJson d) s1) r2|].
  destruct (negb _); cbn [always]; [no_write_attempt (GotFile (DataJson d) s1) r2|].
  eapply always_mono; [|apply two_writes_run]. cbn beta.
  intros rest o Hrun. exists (GotFile (DataJson d) s1), r2. right.
  eexists d, s1, i, e, [], _, rest.
  repeat (split; [try done; eauto|]). exact Hrun.
Qed.

(** ** The retry loop *)

Lemma retry_loop_attempts body giveUp (P : list Ev -> Outcome Result -> Prop) :
  always body P ->
  always (retry_loop MAX_RETRIES body giveUp) (three_attempts P).
Proof.
  intros Hbody. cbn [retry_loop MAX_RETRIES]. unfold MAX_RETRIES.
  change (1000 * Z.of_nat (3 - 2)) with 1000.
  change (1000 * Z.of_nat (3 - 1)) with 2000.
  change (3 - 2 <? 3)%nat with true.
  change (3 - 1 <? 3)%nat with true.
  change (3 - 0 <? 3)%nat with false.
  apply always_catch. eapply always_mono; [|exact Hbody]. cbn beta.
  intros t1 [r|e1] H1; [by left|].
  destruct (has_status 409 e1) eqn:E1; cbn [andb always];
    [|rewrite app_nil_r; by left].
  apply always_catch. eapply always_mono; [|exact Hbody]. cbn beta.
  intros t2 [r|e2] H2.
  { right; left. by exists t1, e1, t2. }
  destruct (has_status 409 e2) eqn:E2; cbn [andb always].
  2:{ rewrite app_nil_r. right; left. by exists t1, e1, t2. }
  apply always_catch. eapply always_mono; [|exact Hbody]. cbn beta.
  intros t3 [r|e3] H3.
  { right; right. by exists t1, e1, t2, e2, t3. }
  rewrite andb_false_r. cbn [always]. rewrite app_nil_r.
  right; right. by exists t1, e1, t2, e2, t3.
Qed.

Lemma bounded_write_cost path c np nl tr :
  bounded_write path c np nl tr ->
  (puts tr <= np)%nat /\ (length tr <= nl)%nat /\ backoffs tr = [].
Proof. intros (Hp & Hl & Hb & _). auto. Qed.

Lemma attempt_run_cost blogId newCount tr o :
  attempt_run blogId newCount tr o ->
  (puts tr <= 8)%nat /\ (length tr <= 23)%nat /\ backoffs tr = [].
Proof.
  intros (r1 & r2 & [[-> _]|H]).
  { simpl. repeat split; lia. }
  destruct H as (d & s1 & i & e & mid & newVotes & rest & -> & _ & Hmid & -> & Hrun).
  destruct Hrun as (trV & trD & -> & HV & HD & _).
  apply bounded_write_cost in HV as (HVp & HVl & HVb).
  apply bounded_write_cost in HD as (HDp & HDl & HDb).
  unfold MAX_RETRIES in *.
  destruct Hmid as [->|[now ->]]; simpl;
    rewrite puts_app, length_app, backoffs_app, HVb, HDb; repeat split; lia.
Qed.

Lemma three_attempts_budget (P : list Ev -> Outcome Result -> Prop) tr o :
  (forall t o', P t o' ->
     (puts t <= 8)%nat /\ (length t <= 23)%nat /\ backoffs t = []) ->
  three_attempts P tr o -> within_budget tr.
Proof.
  intros HP [H|[(t1 & e1 & t2 & -> & H1 & _ & H2)
               |(t1 & e1 & t2 & e2 & t3 & -> & H1 & _ & H2 & _ & H3)]];
    unfold within_budget, MAX_RETRIES.
  - apply HP in H as (Hp & Hl & Hb). split; [lia|]. split; [lia|].
    exists 0%nat. split; [lia|]. by rewrite Hb.
  - apply HP in H1 as (Hp1 & Hl1 & Hb1). apply HP in H2 as (Hp2 & Hl2 & Hb2).
    rewrite puts_app, length_app, backoffs_app. simpl.
    rewrite Hb1, Hb2. split; [lia|]. split; [lia|].
    exists 1%nat. split; [lia|]. reflexivity.
  - apply HP in H1 as (Hp1 & Hl1 & Hb1). apply HP in H2 as (Hp2 & Hl2 & Hb2).
    apply HP in H3 as (Hp3 & Hl3 & Hb3).
    rewrite puts_app, length_app, backoffs_app. simpl.
    rewrite puts_app, length_app, backoffs_app. simpl.
    rewrite Hb1, Hb2, Hb3. split; [lia|]. split; [lia|].
    exists 2%nat. split; [lia|]. reflexivity.
Qed.

(** C3, as the code has it.  The version-refresh retries of a document write
    have a budget of their own, apart from the outer loop's: one write is
    tried at most [1 + MAX_RETRIES = 4] times, the outer loop makes at most
    [MAX_RETRIES = 3] attempts, waiting [1000 * attempt] ms before retry
    [attempt]; a cast-vote or retract-vote operation therefore always ends,
    after at most 24 write requests among at most 71 requests. *)
Theorem retry_budgets_are_separate {S} (w : World S) (s : S)
    (blogId ipHash : string) :
  (forall path c sha0 msg,
     (puts (trace_of (exec w (updateGitHubFile path c sha0 msg 0) s))
        <= 1 + MAX_RETRIES)%nat) /\
  (exists o s' tr,
     exec w (processVote blogId ipHash) s = (o, s', tr) /\ within_budget tr) /\
  (exists o s' tr,
     exec w (processUnvote blogId ipHash) s = (o, s', tr) /\ within_budget tr).
Proof.
  split; [|split].
  - intros path c sha0 msg.
    pose proof (always_exec w _ _ s (updateGitHubFile_trace path c sha0 msg)) as H.
    apply H.
  - pose proof (always_exec w _ _ s
      (retry_loop_attempts _ "Failed to process vote after multiple retries" _
         (processVote_attempt_run blogId ipHash))) as H.
    fold (processVote blogId ipHash) in H.
    destruct (exec w (processVote blogId ipHash) s) as [[o s'] tr].
    exists o, s', tr. split; [reflexivity|].
    eapply three_attempts_budget; [|exact H]. intros t o'. apply attempt_run_cost.
  - pose proof (always_exec w _ _ s
      (retry_loop_attempts _ "Failed to process unvote after multiple retries" _
         (processUnvote_attempt_run blogId ipHash))) as H.
    fold (processUnvote blogId ipHash) in H.
    destruct (exec w (processUnvote blogId ipHash) s) as [[o s'] tr].
    exists o, s', tr. split; [reflexivity|].
    eapply three_attempts_budget; [|exact H]. intros t o'. apply attempt_run_cost.
Qed.

(** The bound of 24 write requests is reached. *)
Lemma write_budget_is_reached :
  puts (trace_of (exec stubborn (processVote "a1" "h1") O)) = 24%nat /\
  backoffs (trace_of (exec stubborn (processVote "a1" "h1") O)) = [1000; 2000].
Proof. vm_compute. split; reflexivity. Qed.

(** C3 as stated fails: when every write meets a conflict, one cast-vote
    sends twelve write requests (four per attempt), not at most three. *)
Lemma shared_budget_refuted :
  puts (trace_of (exec contended (processVote "a1" "h1") a1_store)) = 12%nat /\
  ~ (forall S (w : World S) (s : S) blogId ipHash,
       (puts (trace_of (exec w (processVote blogId ipHash) s)) <= MAX_RETRIES)%nat).
Proof.
  assert (E : puts (trace_of (exec contended (processVote "a1" "h1") a1_store)) = 12%nat)
    by (vm_compute; reflexivity).
  split; [exact E|].
  intros H. specialize (H _ contended a1_store "a1" "h1").
  rewrite E in H. unfold MAX_RETRIES in H. lia.
Qed.

(** ** Running against the store, no other caller in between *)

Lemma exec_bind {S A B} (w : World S) (p : Prog A) (f : A -> Prog B) (s : S) :
  exec w (bind p f) s =
    match exec w p s with
    | (Returned r, s1, tr) =>
        let '(o2, s2, tr2) := exec w (f r) s1 in (o2, s2, tr ++ tr2)
    | (Thrown err, s1, tr) => (Thrown err, s1, tr)
    end.
Proof.
  revert s. induction p as [r|err|path k IH|path c s0 msg k IH|ms k IH|k IH];
    intros s; cbn [bind exec].
  - destruct (exec w (f r) s) as [[o2 s2] tr2]. reflexivity.
  - reflexivity.
  - destruct (on_get w path s) as [r s1]. rewrite IH.
    destruct (exec w (k r) s1) as [[[x|err] s2] tr]; [|reflexivity].
    destruct (exec w (f x) s2) as [[o3 s3] tr3]. reflexivity.
  - destruct (on_put w path c s0 msg s) as [r s1]. rewrite IH.
    destruct (exec w (k r) s1) as [[[x|err] s2] tr]; [|reflexivity].
    destruct (exec w (f x) s2) as [[o3 s3] tr3]. reflexivity.
  - rewrite IH.
    destruct (exec w k (on_sleep w ms s)) as [[[x|err] s2] tr]; [|reflexivity].
    destruct (exec w (f x) s2) as [[o3 s3] tr3]. reflexivity.
  - destruct (on_now w s) as [t s1]. rewrite IH.
    destruct (exec w (k t) s1) as [[[x|err] s2] tr]; [|reflexivity].
    destruct (exec w (f x) s2) as [[o3 s3] tr3]. reflexivity.
Qed.

Lemma exec_catch {S A} (w : World S) (p : Prog A) (h : Err -> Prog A) (s : S) :
  exec w (catch p h) s =
    match exec w p s with
    | (Returned r, s1, tr) => (Returned r, s1, tr)
    | (Thrown err, s1, tr) =>
        let '(o2, s2, tr2) := exec w (h err) s1 in (o2, s2, tr ++ tr2)
    end.
Proof.
  revert s. induction p as [r|err|path k IH|path c s0 msg k IH|ms k IH|k IH];
    intros s; cbn [catch exec].
  - reflexivity.
  - destruct (exec w (h err) s) as [[o2 s2] tr2]. reflexivity.
  - destruct (on_get w path s) as [r s1]. rewrite IH.
    destruct (exec w (k r) s1) as [[[x|err] s2] tr]; [reflexivity|].
    destruct (exec w (h err) s2) as [[o3 s3] tr3]. reflexivity.
  - destruct (on_put w path c s0 msg s) as [r s1]. rewrite IH.
    destruct (exec w (k r) s1) as [[[x|err] s2] tr]; [reflexivity|].
    destruct (exec w (h err) s2) as [[o3 s3] tr3]. reflexivity.
  - rewrite IH.
    destruct (exec w k (on_sleep w ms s)) as [[[x|err] s2] tr]; [reflexivity|].
    destruct (exec w (h err) s2) as [[o3 s3] tr3]. reflexivity.
  - destruct (on_now w s) as [t s1]. rewrite IH.
    destruct (exec w (k t) s1) as [[[x|err] s2] tr]; [reflexivity|].
    destruct (exec w (h err) s2) as [[o3 s3] tr3]. reflexivity.
Qed.

(** The first attempt decides when it does not throw. *)
Lemma exec_retry_loop_returned {S} (w : World S) body giveUp (s : S) r s1 tr :
  exec w body s = (Returned r, s1, tr) ->
  exec w (retry_loop MAX_RETRIES body giveUp) s = (Returned r, s1, tr).
Proof. intros H. cbn [retry_loop MAX_RETRIES]. by rewrite exec_catch, H. Qed.

(** So does it when it throws anything but a 409. *)
Lemma exec_retry_loop_thrown {S} (w : World S) body giveUp (s : S) err s1 tr :
  exec w body s = (Thrown err, s1, tr) ->
  has_status 409 err = false ->
  exec w (retry_loop MAX_RETRIES body giveUp) s = (Thrown err, s1, tr).
Proof.
  intros H E. cbn [retry_loop MAX_RETRIES]. rewrite exec_catch, H, E.
  cbn [andb exec]. by rewrite app_nil_r.
Qed.

Lemma exec_read_both (st : Store) :
  exec github (Promise_all (getGitHubFile DATA_PATH) (getGitHubFile VOTES_PATH)) st =
    (Returned (file_read (data_file st), file_read (votes_file st)), st,
     [EvGet DATA_PATH (resp_of_file (data_file st));
      EvGet VOTES_PATH (resp_of_file (votes_file st))]).
Proof.
  destruct st as [[[c1 s1]|] [[c2 s2]|] t]; reflexivity.
Qed.

Lemma exec_updateGitHubFile_done path c sha0 msg st st' :
  store_put path c sha0 msg st = (PutDone, st') ->
  exec github (updateGitHubFile path c sha0 msg 0) st =
    (Returned tt, st', [EvPut path c sha0 msg PutDone]).
Proof.
  intros H. unfold updateGitHubFile. cbn [MAX_RETRIES Nat.sub updateGitHubFile_left exec].
  cbn [on_put github]. by rewrite H.
Qed.

Lemma ledger_lookup_default (v : gmap string (gmap string Z)) blogId ipHash :
  default ∅ (v !! blogId) !! ipHash = ledger_lookup v blogId ipHash.
Proof. unfold ledger_lookup. destruct (v !! blogId); simpl; [done|apply lookup_empty]. Qed.


Ltac alone_writes :=
  repeat (rewrite exec_bind;
          erewrite exec_updateGitHubFile_done;
          [|unfold store_put;
            cbn [file_at votes_file data_file set_file clock];
            rewrite ?decide_True by reflexivity; reflexivity]);
  reflexivity.

Lemma exec_processVote_attempt blogId ipHash st :
  exec github (processVote_attempt blogId ipHash) st = vote_alone blogId ipHash st.
Proof.
  unfold processVote_attempt, vote_alone. rewrite exec_bind, exec_read_both.
  destruct st as [df vf t]. cbn [data_file votes_file clock].
  destruct df as [[[d|v1] s1]|]; cbn [file_read content sha exec]; try reflexivity.
  destruct (find_entry blogId (entries d)) as [[i e]|]; cbn [exec]; [|reflexivity].
  destruct vf as [[[d2|v] s2]|];
    cbn [file_read content sha exec default from_option Datatypes.id]; try reflexivity.
  - unfold stored_ledger. cbn [votes_file]. rewrite ledger_lookup_default.
    destruct (truthy _); cbn [exec]; [reflexivity|].
    cbn [on_now github clock]. alone_writes.
  - unfold stored_ledger. cbn [votes_file votesOf]. rewrite ledger_lookup_default.
    destruct (truthy _); cbn [exec]; [reflexivity|].
    cbn [on_now github clock]. alone_writes.
Qed.

Lemma vote_alone_thrown blogId ipHash st err s1 tr :
  vote_alone blogId ipHash st = (Thrown err, s1, tr) -> has_status 409 err = false.
Proof.
  unfold vote_alone. intros H.
  repeat match type of H with
         | context [match ?x with _ => _ end] => destruct x
         end; by inversion H.
Qed.

Lemma exec_processVote blogId ipHash st :
  exec github (processVote blogId ipHash) st = vote_alone blogId ipHash st.
Proof.
  unfold processVote.
  destruct (vote_alone blogId ipHash st) as [[[r|err] s1] tr] eqn:E.
  - apply exec_retry_loop_returned. by rewrite exec_processVote_attempt.
  - apply exec_retry_loop_thrown; [by rewrite exec_processVote_attempt|].
    by eapply vote_alone_thrown.
Qed.








Lemma exec_processUnvote_attempt blogId ipHash st :
  exec github (processUnvote_attempt blogId ipHash) st = unvote_alone blogId ipHash st.
Proof.
  unfold processUnvote_attempt, unvote_alone. rewrite exec_bind, exec_read_both.
  destruct st as [df vf t]. cbn [data_file votes_file clock].
  destruct df as [[dc s1]|]; cbn [file_read content sha exec]; [|reflexivity].
  destruct vf as [[vc s2]|]; cbn [file_read content sha exec]; [|reflexivity].
  destruct dc as [d|v1]; cbn [exec]; [|reflexivity].
  destruct (find_entry blogId (entries d)) as [[i e]|]; cbn [exec]; [|reflexivity].
  destruct vc as [d2|v]; cbn [exec]; [reflexivity|].
  destruct (negb _); cbn [exec]; [reflexivity|].
  alone_writes.
Qed.

Lemma unvote_alone_thrown blogId ipHash st err s1 tr :
  unvote_alone blogId ipHash st = (Thrown err, s1, tr) -> has_status 409 err = false.
Proof.
  unfold unvote_alone. intros H.
  repeat match type of H with
         | context [match ?x with _ => _ end] => destruct x
         end; by inversion H.
Qed.

Lemma exec_processUnvote blogId ipHash st :
  exec github (processUnvote blogId ipHash) st = unvote_alone blogId ipHash st.
Proof.
  unfold processUnvote.
  destruct (unvote_alone blogId ipHash st) as [[[r|err] s1] tr] eqn:E.
  - apply exec_retry_loop_returned. by rewrite exec_processUnvote_attempt.
  - apply exec_retry_loop_thrown; [by rewrite exec_processUnvote_attempt|].
    by eapply unvote_alone_thrown.
Qed.

(** ** Retract-vote and a missing Ledger *)

(** C4 as stated fails: with the item in the Aggregate and no Ledger
    document, [processUnvote] does not answer [notVoted]; it throws. *)
Lemma missing_ledger_is_not_notVoted :
  outcome_of (exec github (processUnvote "a1" "h1") no_ledger_store) =
    Thrown (Error "Votes file not found") /\
  outcome_of (exec github (processUnvote "a1" "h1") no_ledger_store) <>
    Returned notVoted /\
  outcome_of (exec github (unvote_handler (fun ip => ip)
                             (mkRequest "POST" (Some "a1") "h1")) no_ledger_store) =
    Returned (Json 500 (ErrorDetails "Failed to process unvote" "Votes file not found")).
Proof.
  split; [vm_compute; reflexivity|].
  split; [vm_compute; discriminate|vm_compute; reflexivity].
Qed.

(** C4, as the code has it.  For retract-vote a missing Ledger document is an
    error: when the Aggregate document exists and the Ledger document does
    not, [processUnvote] throws 'Votes file not found' after the two reads,
    without a retry and without writing, whether or not the item is in the
    Aggregate. *)
Theorem retractVote_needs_the_ledger (blogId ipHash : string) (st : Store)
    (c : Content) (s : Sha) :
  data_file st = Some (c, s) ->
  votes_file st = None ->
  exec github (processUnvote blogId ipHash) st =
    (Thrown (Error "Votes file not found"), st, reads st) /\
  puts (reads st) = 0%nat /\ backoffs (reads st) = [].
Proof.
  intros Hd Hv. rewrite exec_processUnvote. unfold unvote_alone. rewrite Hd, Hv.
  split; [reflexivity|]. unfold reads. rewrite Hd, Hv. split; reflexivity.
Qed.

(** The item is there, the Ledger is not. *)
Lemma retractVote_needs_the_ledger_example :
  exec github (processUnvote "a1" "h1") no_ledger_store =
    (Thrown (Error "Votes file not found"), no_ledger_store, reads no_ledger_store) /\
  puts (reads no_ledger_store) = 0%nat /\ backoffs (reads no_ledger_store) = [].
Proof.
  eapply (retractVote_needs_the_ledger "a1" "h1" no_ledger_store); reflexivity.
Defined.

(** ** What an attempt writes to the Aggregate *)

Lemma bounded_write_puts path c np nl tr path' c' sha0 msg r :
  bounded_write path c np nl tr ->
  EvPut path' c' sha0 msg r ∈ tr -> path' = path /\ c' = c.
Proof.
  intros (_ & _ & _ & Hf) Hin.
  rewrite Forall_forall in Hf. apply (Hf _ Hin).
Qed.

Lemma attempt_run_data_put blogId newCount t o c' sha0 msg r :
  attempt_run blogId newCount t o ->
  EvPut DATA_PATH c' sha0 msg r ∈ t ->
  exists d s0 rest i e,
    t = EvGet DATA_PATH (GotFile (DataJson d) s0) :: rest /\
    find_entry blogId (entries d) = Some (i, e) /\
    c' = DataJson (with_entry d i (set_votes e (newCount e))).
Proof.
  intros (r1 & r2 & [[-> _]|H]) Hin.
  { rewrite !elem_of_cons in Hin. destruct Hin as [Hin|[Hin|Hin]]; try discriminate.
    by apply elem_of_nil in Hin. }
  destruct H as (d & s1 & i & e & mid & newVotes & rest & -> & Hf & Hmid & -> & Hrun).
  destruct Hrun as (trV & trD & -> & HV & HD & _).
  eexists d, s1, _, i, e. split; [reflexivity|]. split; [exact Hf|].
  rewrite !elem_of_cons, !elem_of_app in Hin.
  destruct Hin as [Hin|[Hin|[Hin|[Hin|Hin]]]]; try discriminate.
  - destruct Hmid as [->|[now ->]]; [by apply elem_of_nil in Hin|].
    apply list_elem_of_singleton in Hin. discriminate.
  - by destruct (bounded_write_puts _ _ _ _ _ _ _ _ _ _ HV Hin).
  - by destruct (bounded_write_puts _ _ _ _ _ _ _ _ _ _ HD Hin).
Qed.


Lemma differ_only_set_votes blogId (d : BlogData) i e n :
  find_entry blogId (entries d) = Some (i, e) ->
  differ_only_in_votes blogId d (with_entry d i (set_votes e n)).
Proof.
  intros Hf. pose proof Hf as Hf'. unfold find_entry in Hf'.
  apply list_find_Some in Hf' as (Hi & _ & _).
  split; [reflexivity|]. split; [apply length_insert|].
  intros j e0 Hj. cbn [entries with_entry].
  destruct (decide (j = i)) as [->|Hne].
  - assert (e0 = e) as -> by congruence.
    exists (set_votes e n). split; [|split; [reflexivity|split; [reflexivity|]]].
    + apply list_lookup_insert_eq. by eapply lookup_lt_Some.
    + intros _. by exists i.
  - exists e0. split; [by rewrite list_lookup_insert_ne|].
    split; [reflexivity|split; [reflexivity|]]. intros H. by destruct H.
Qed.

Lemma attempt_run_frame blogId newCount t o :
  attempt_run blogId newCount t o -> frame_attempt blogId t.
Proof.
  intros Hrun c' sha0 msg r Hin.
  destruct (attempt_run_data_put _ _ _ _ _ _ _ _ Hrun Hin)
    as (d & s0 & rest & i & e & -> & Hf & ->).
  eexists d, s0, rest, _. split; [reflexivity|]. split; [reflexivity|].
  by apply differ_only_set_votes.
Qed.

Lemma three_attempts_mono (P P' : list Ev -> Outcome Result -> Prop) tr o :
  (forall t o', P t o' -> P' t o') -> three_attempts P tr o -> three_attempts P' tr o.
Proof.
  intros HP [H|[(t1 & e1 & t2 & -> & H1 & E1 & H2)
               |(t1 & e1 & t2 & e2 & t3 & -> & H1 & E1 & H2 & E2 & H3)]].
  - left. auto.
  - right; left. exists t1, e1, t2. auto.
  - right; right. exists t1, e1, t2, e2, t3. repeat (split; auto).
Qed.



Lemma processVote_attempts blogId ipHash :
  always (processVote blogId ipHash)
    (three_attempts (attempt_run blogId (fun e => votes_or_0 e + 1))).
Proof. apply retry_loop_attempts, processVote_attempt_run. Qed.

Lemma processUnvote_attempts blogId ipHash :
  always (processUnvote blogId ipHash)
    (three_attempts (attempt_run blogId (fun e => Z.max 0 (votes_or_0 e - 1)))).
Proof. apply retry_loop_attempts, processUnvote_attempt_run. Qed.

(** C8. Whatever the store answers, a cast-vote or retract-vote operation is
    a series of attempts, and what an attempt writes to the Aggregate is the
    content it read at its start with only the votes of the targeted item
    changed: the other items, and the id and the other fields of that item,
    are passed through. *)
Theorem aggregate_frame {S} (w : World S) (s : S) (blogId ipHash : string) :
  three_attempts (fun t _ => frame_attempt blogId t)
    (trace_of (exec w (processVote blogId ipHash) s))
    (outcome_of (exec w (processVote blogId ipHash) s)) /\
  three_attempts (fun t _ => frame_attempt blogId t)
    (trace_of (exec w (processUnvote blogId ipHash) s))
    (outcome_of (exec w (processUnvote blogId ipHash) s)).
Proof.
  split.
  - eapply three_attempts_mono;
      [|apply (always_exec w _ _ s (processVote_attempts blogId ipHash))].
    intros t o'. apply attempt_run_frame.
  - eapply three_attempts_mono;
      [|apply (always_exec w _ _ s (processUnvote_attempts blogId ipHash))].
    intros t o'. apply attempt_run_frame.
Qed.

(** ** What a successful cast-vote has done *)



(** ** Retract-vote floors the count at zero *)




(** ** The read-votes handler *)

Lemma votes_handler_reads_only hashIP req :
  always (votes_handler hashIP req) (fun tr _ => puts tr = 0%nat).
Proof.
  unfold votes_handler.
  destruct (String.eqb (method req) "OPTIONS"); [reflexivity|].
  destruct (negb _); [reflexivity|].
  unfold Promise_all, settle, getGitHubFile_content. cbn [bind catch always].
  intros r1.
  destruct r1 as [c1 s1|err1]; [|destruct (has_status 404 err1)];
    cbn [bind catch always]; intros r2;
    (destruct r2 as [c2 s2|err2]; [|destruct (has_status 404 err2)]);
    cbn [bind catch always]; try reflexivity;
    try (destruct c1; cbn [bind catch always]; reflexivity).
Qed.

Lemma truthy_is_Some (x : option Z) :
  (forall t, x = Some t -> t <> 0) ->
  (if truthy x then true else false) = bool_decide (is_Some x).
Proof.
  intros H. destruct x as [t|]; simpl.
  - specialize (H t eq_refl). destruct (t =? 0) eqn:E; [lia|]. reflexivity.
  - reflexivity.
Qed.

(** C9. The read-votes handler sends no write, whatever the store answers;
    and on a store holding the Aggregate, with the Ledger present or not, it
    leaves the store as it is and answers, for every item of the Aggregate in
    order, its id, its count (0 when the field is absent) and whether the
    caller's identity is under that item in the Ledger.  (Ledger timestamps
    are not the epoch itself.) *)
Theorem listVotes_reads_and_reports (hashIP : string -> string) {S} (w : World S)
    (s : S) (req : Request) :
  puts (trace_of (exec w (votes_handler hashIP req) s)) = 0%nat /\
  forall st d s1,
    method req = "GET" ->
    data_file st = Some (DataJson d, s1) ->
    (forall b ip t, ledger_lookup (stored_ledger st) b ip = Some t -> t <> 0) ->
    exec github (votes_handler hashIP req) st =
      (Returned (Json 200 (EntriesBody
         ((fun e => mkVoteView (id e) (default 0 (votes e))
                      (bool_decide (is_Some
                         (ledger_lookup (stored_ledger st) (id e) (hashIP (realIP req))))))
          <$> entries d))),
       st, reads st).
Proof.
  split; [apply (always_exec w _ _ s (votes_handler_reads_only hashIP req))|].
  intros st d s1 Hm Hd Hts. unfold votes_handler. rewrite Hm.
  change (String.eqb "GET" "OPTIONS") with false.
  change (negb (String.eqb "GET" "GET")) with false. cbv iota.
  assert (Hmap : vote_view (stored_ledger st) (hashIP (realIP req)) <$> entries d =
    (fun e => mkVoteView (id e) (default 0 (votes e))
                (bool_decide (is_Some
                   (ledger_lookup (stored_ledger st) (id e) (hashIP (realIP req))))))
    <$> entries d).
  { apply list_fmap_ext. intros i e _. unfold vote_view, votes_or_0.
    f_equal. apply truthy_is_Some. intros t. apply Hts. }
  rewrite <- Hmap. unfold reads, stored_ledger.
  destruct st as [df vf t]. cbn [data_file votes_file] in *. subst df.
  destruct vf as [[[d2|v] s2]|]; reflexivity.
Qed.

(** After the vote of the scenario the caller sees count 4 and its own
    vote; without a Ledger document it sees count 3 and no vote. *)
Lemma listVotes_example :
  exec github (votes_handler (fun ip => ip) (mkRequest "GET" None "h1"))
       (state_of (exec github (processVote "a1" "h1") a1_store)) =
    (Returned (Json 200 (EntriesBody [mkVoteView "a1" 4 true])),
     state_of (exec github (processVote "a1" "h1") a1_store),
     reads (state_of (exec github (processVote "a1" "h1") a1_store))) /\
  exec github (votes_handler (fun ip => ip) (mkRequest "GET" None "h1")) no_ledger_store =
    (Returned (Json 200 (EntriesBody [mkVoteView "a1" 3 false])),
     no_ledger_store, reads no_ledger_store).
Proof.
  destruct (listVotes_reads_and_reports (fun ip => ip) github a1_store
              (mkRequest "GET" None "h1")) as [_ H].
  split.
  - rewrite (H (state_of (exec github (processVote "a1" "h1") a1_store))
               (mkBlogData [mkEntry "a1" (Some 4) [("title", "A one")]] []) 8%nat).
    + vm_compute. reflexivity.
    + reflexivity.
    + vm_compute. reflexivity.
    + assert (E : stored_ledger (state_of (exec github (processVote "a1" "h1") a1_store))
                  = <["a1" := <["h1" := 1700000000000]> ∅]> ∅)
        by (vm_compute; reflexivity).
      rewrite E. intros b ip t. unfold ledger_lookup.
      destruct (decide (b = "a1")) as [->|Hb];
        [|rewrite lookup_insert_ne, lookup_empty by congruence; discriminate].
      rewrite lookup_insert_eq. simpl.
      destruct (decide (ip = "h1")) as [->|Hip];
        [|rewrite lookup_insert_ne, lookup_empty by congruence; discriminate].
      rewrite lookup_insert_eq. intros [= <-]. discriminate.
  - rewrite (H no_ledger_store
               (mkBlogData [mkEntry "a1" (Some 3) [("title", "A one")]] []) 7%nat).
    + vm_compute. reflexivity.
    + reflexivity.
    + reflexivity.
    + intros b ip t. unfold ledger_lookup, stored_ledger. simpl.
      rewrite lookup_empty. discriminate.
Defined.

(** ** The vote handler and the rate limit *)

Lemma checkRateLimit_allowed now ipHash (m m' : gmap string Limits) :
  checkRateLimit now ipHash m = (true, m') ->
  m' = <[ipHash := mkLimits (count (current_window now (m !! ipHash)) + 1)
                            (windowStart (current_window now (m !! ipHash)))]> m.
Proof.
  intros H.
  destruct (Z_lt_ge_dec (count (current_window now (m !! ipHash))) MAX_VOTES_PER_WINDOW)
    as [Hroom|Hfull].
  - rewrite (checkRateLimit_room _ _ _ Hroom) in H. congruence.
  - rewrite (checkRateLimit_full _ _ _ Hfull) in H. discriminate.
Qed.

(** C10. A cast-vote request that the limiter lets through has, before its
    first request to the store, raised the identity's count for the current
    window by exactly one; the handler's answer, whatever it is (success,
    already voted, item not found, conflict, store failure), comes with that
    same map: the unit is never given back. *)
Theorem rate_limit_is_consumed (hashIP : string -> string) {S} (w : World S) (s : S)
    (req : Request) (blogId : string) (rateLimitMap rateLimitMap' : gmap string Limits) :
  method req = "POST" ->
  blogId_of req = Some blogId ->
  blogId <> "" ->
  checkRateLimit (on_now w s).1 (hashIP (realIP req)) rateLimitMap =
    (true, rateLimitMap') ->
  (exists res s' tr,
     exec w (vote_handler hashIP req rateLimitMap) s =
       (Returned (res, rateLimitMap'), s', EvNow (on_now w s).1 :: tr) /\
     (tr = trace_of (exec w (processVote blogId (hashIP (realIP req))) (on_now w s).2))) /\
  count <$> rateLimitMap' !! hashIP (realIP req) =
    Some (count (current_window (on_now w s).1
                   (rateLimitMap !! hashIP (realIP req))) + 1).
Proof.
  intros Hm Hb Hne Hrl. split.
  - unfold vote_handler. rewrite Hm, Hb.
    change (String.eqb "POST" "OPTIONS") with false.
    change (negb (String.eqb "POST" "POST")) with false. cbv iota.
    destruct blogId as [|a blogId]; [congruence|].
    cbn [exec]. destruct (on_now w s) as [now s1]. cbn [fst snd] in *.
    rewrite Hrl. cbn [negb]. rewrite exec_bind, exec_catch, exec_bind.
    destruct (exec w (processVote (String a blogId) (hashIP (realIP req))) s1)
      as [[[r|err] s2] tr2]; cbn [trace_of snd].
    + destruct r; cbn [exec]; eexists _, _, _; (split; [reflexivity|]);
        by rewrite !app_nil_r.
    + cbn [exec]. eexists _, _, _. split; [reflexivity|]. by rewrite !app_nil_r.
  - rewrite (checkRateLimit_allowed _ _ _ _ Hrl). by rewrite lookup_insert_eq.
Qed.

(** A second vote of the same identity for the same item is refused as
    already voted, and still counts against the identity's window. *)
Lemma rate_limit_is_consumed_example :
  exists s' tr,
    exec github
      (vote_handler (fun ip => ip) (mkRequest "POST" (Some "a1") "h1")
         {["h1" := mkLimits 1 1700000000000]})
      (state_of (exec github (processVote "a1" "h1") a1_store)) =
    (Returned (Json 400 (ResultBody alreadyVoted),
               <["h1" := mkLimits 2 1700000000000]> {["h1" := mkLimits 1 1700000000000]}),
     s', EvNow 1700000000000 :: tr).
Proof.
  destruct (rate_limit_is_consumed (fun ip => ip) github
              (state_of (exec github (processVote "a1" "h1") a1_store))
              (mkRequest "POST" (Some "a1") "h1") "a1"
              {["h1" := mkLimits 1 1700000000000]}
              (<["h1" := mkLimits 2 1700000000000]> {["h1" := mkLimits 1 1700000000000]}))
    as [(res & s' & tr & H & _) _].
  - reflexivity.
  - reflexivity.
  - discriminate.
  - vm_compute. reflexivity.
  - exists s', tr. rewrite H. f_equal. f_equal.
    assert (E : outcome_of (exec github
      (vote_handler (fun ip => ip) (mkRequest "POST" (Some "a1") "h1")
         {["h1" := mkLimits 1 1700000000000]})
      (state_of (exec github (processVote "a1" "h1") a1_store))) =
      Returned (Json 400 (ResultBody alreadyVoted),
                <["h1" := mkLimits 2 1700000000000]> {["h1" := mkLimits 1 1700000000000]}))
      by (vm_compute; reflexivity).
    rewrite H in E. cbn in E. congruence.
Defined.

(** ** Two callers at once *)

(** C2 fails on the code.  Two identities vote for the same item; each reads
    both documents before the other writes.  The second caller's writes meet
    a 409, [updateGitHubFile] fetches the new sha and sends its own stale
    content again: both calls report success with count 4, the count ends at
    4 instead of 5, and the first identity's ledger entry is gone. *)
Theorem concurrent_votes_lose_an_update :
  let '(o1, o2, st) :=
    interleave github [true; true; false; false]
      (processVote "a1" "h1") (processVote "a1" "h2") a1_store in
  o1 = Returned (success 4) /\ o2 = Returned (success 4) /\
  votes <$> stored_entry "a1" st = Some (Some 4) /\
  ledger_lookup (stored_ledger st) "a1" "h1" = None /\
  ledger_lookup (stored_ledger st) "a1" "h2" = Some 1700000000000.
Proof. vm_compute. repeat split; reflexivity. Qed.

(** ** The client address *)

Lemma before_comma_prefix (a rest : string) :
  before_comma a = a -> before_comma (a +:+ "," +:+ rest) = a.
Proof.
  induction a as [|c a IH]; intros H; [reflexivity|].
  change (String c a +:+ "," +:+ rest) with (String c (a +:+ "," +:+ rest)).
  cbn [before_comma] in *.
  destruct (Ascii.eqb c ","); [discriminate|].
  injection H as H. by rewrite (IH H).
Qed.

Lemma or_else_nonempty (a : string) : or_else a "unknown" <> "".
Proof. by destruct a. Qed.

(** X1. [getRealIP] never answers the empty string; when the first element
    of [X-Forwarded-For] is a trimmed, non-empty address it answers that
    element, whatever follows the comma and whatever [X-Real-IP] says; without
    [X-Forwarded-For] it answers [X-Real-IP], and ['unknown'] when that is
    missing or empty too. *)
Theorem getRealIP_first_forwarded (a rest : string) (real : option string) :
  (forall h, getRealIP h <> "") /\
  (a <> "" -> before_comma a = a -> trim a = a ->
     getRealIP (mkHeaders (Some a) real) = a /\
     getRealIP (mkHeaders (Some (a +:+ "," +:+ rest)) real) = a) /\
  (a <> "" -> getRealIP (mkHeaders None (Some a)) = a) /\
  getRealIP (mkHeaders None None) = "unknown" /\
  getRealIP (mkHeaders None (Some "")) = "unknown".
Proof.
  split; [intros h; apply or_else_nonempty|].
  split; [|split; [|split; reflexivity]].
  - intros Ha Hc Ht. unfold getRealIP. cbn [x_forwarded_for x_real_ip fmap option_fmap option_map default from_option Datatypes.id].
    rewrite before_comma_prefix by exact Hc. rewrite Hc, Ht.
    destruct a; [congruence|]. split; reflexivity.
  - intros Ha. unfold getRealIP. cbn. by destruct a.
Qed.

Lemma getRealIP_example :
  getRealIP (mkHeaders (Some "203.0.113.7") (Some "10.0.0.1")) = "203.0.113.7" /\
  getRealIP (mkHeaders (Some ("203.0.113.7" +:+ "," +:+ " 70.41.3.18, 150.172.238.178"))
                       (Some "10.0.0.1")) = "203.0.113.7" /\
  getRealIP (mkHeaders None (Some "10.0.0.1")) = "10.0.0.1".
Proof.
  destruct (getRealIP_first_forwarded "203.0.113.7" " 70.41.3.18, 150.172.238.178"
              (Some "10.0.0.1")) as (_ & H & _).
  destruct (getRealIP_first_forwarded "10.0.0.1" "" None) as (_ & _ & H' & _).
  destruct H as [H1 H2]; [discriminate|reflexivity|reflexivity|].
  split; [exact H1|]. split; [exact H2|]. apply H'. discriminate.
Defined.

(** ** More on the rate limiter *)

Lemma checkRateLimit_refused now ipHash (m m' : gmap string Limits) :
  checkRateLimit now ipHash m = (false, m') -> m' = m.
Proof.
  intros H.
  destruct (Z_lt_ge_dec (count (current_window now (m !! ipHash))) MAX_VOTES_PER_WINDOW)
    as [Hroom|Hfull].
  - rewrite (checkRateLimit_room _ _ _ Hroom) in H. discriminate.
  - rewrite (checkRateLimit_full _ _ _ Hfull) in H. congruence.
Qed.

(** X2. A call of [checkRateLimit] for one identity leaves the windows of all
    other identities as they were. *)
Theorem checkRateLimit_other_identities (now : Z) (ipHash other : string)
    (m : gmap string Limits) :
  other <> ipHash ->
  (checkRateLimit now ipHash m).2 !! other = m !! other.
Proof.
  intros Hne. destruct (checkRateLimit now ipHash m) as [[|] m'] eqn:E; cbn [snd].
  - rewrite (checkRateLimit_allowed _ _ _ _ E). by rewrite lookup_insert_ne.
  - by rewrite (checkRateLimit_refused _ _ _ _ E).
Qed.

Lemma checkRateLimit_other_identities_example :
  (checkRateLimit 1700000000000 "h1" {["h2" := mkLimits 7 1699999990000]}).2 !! "h2" =
    ({["h2" := mkLimits 7 1699999990000]} : gmap string Limits) !! "h2".
Proof.
  apply (checkRateLimit_other_identities 1700000000000 "h1" "h2"). discriminate.
Defined.

Lemma current_window_range now (stored : option Limits) :
  (forall l, stored = Some l -> 0 <= count l <= MAX_VOTES_PER_WINDOW) ->
  0 <= count (current_window now stored) <= MAX_VOTES_PER_WINDOW.
Proof.
  intros H. unfold current_window.
  destruct stored as [l|]; simpl.
  - destruct (now - windowStart l >? RATE_LIMIT_WINDOW); simpl; [done|]. by apply H.
  - destruct (now - now >? RATE_LIMIT_WINDOW); simpl; done.
Qed.

(** X3. Counts stay between 0 and the capacity: if every identity's count is
    in that range before a call of [checkRateLimit], so it is after, whatever
    the clock reading and the identity. *)
Theorem checkRateLimit_keeps_counts_in_range (now : Z) (ipHash : string)
    (m : gmap string Limits) :
  counts_in_range m -> counts_in_range (checkRateLimit now ipHash m).2.
Proof.
  intros Hm. pose proof (current_window_range now (m !! ipHash) (Hm ipHash)) as Hcur.
  destruct (checkRateLimit now ipHash m) as [[|] m'] eqn:E; cbn [snd].
  - pose proof E as E'. rewrite (checkRateLimit_allowed _ _ _ _ E).
    destruct (Z_lt_ge_dec (count (current_window now (m !! ipHash))) MAX_VOTES_PER_WINDOW)
      as [Hroom|Hfull].
    + intros ip l. destruct (decide (ip = ipHash)) as [->|Hne].
      * rewrite lookup_insert_eq. intros [= <-]. simpl. lia.
      * rewrite lookup_insert_ne by done. apply Hm.
    + rewrite (checkRateLimit_full _ _ _ Hfull) in E'. discriminate.
  - by rewrite (checkRateLimit_refused _ _ _ _ E).
Qed.

Lemma checkRateLimit_keeps_counts_in_range_example :
  counts_in_range
    (checkRateLimit 1700000000000 "h1" {["h1" := mkLimits 9 1699999990000]}).2.
Proof.
  apply checkRateLimit_keeps_counts_in_range.
  intros ip l. destruct (decide (ip = "h1")) as [->|Hne].
  - rewrite lookup_singleton_eq. intros [= <-]. vm_compute. split; discriminate.
  - rewrite lookup_singleton_ne by done. discriminate.
Defined.

Lemma allow_calls_in_window ipHash ws (rest : list Z) :
  forall (k : nat) (m : gmap string Limits),
    m !! ipHash = Some (mkLimits (Z.of_nat k) ws) ->
    (k <= 10)%nat ->
    Forall (fun t => t - ws <= RATE_LIMIT_WINDOW) rest ->
    (allow_calls rest ipHash m).1 =
      replicate (length rest `min` (10 - k)) true ++
      replicate (length rest - (10 - k)) false.
Proof.
  induction rest as [|t rest IH]; intros k m Hm Hk Hall; [reflexivity|].
  inversion_clear Hall as [|? ? Ht Hrest]. cbn [allow_calls].
  rewrite (checkRateLimit_window _ _ _ _ _ Hm Ht).
  destruct (Z.of_nat k >=? MAX_VOTES_PER_WINDOW) eqn:E.
  - assert (k = 10%nat) as -> by (unfold MAX_VOTES_PER_WINDOW in E; lia).
    specialize (IH 10%nat m Hm Hk Hrest).
    destruct (allow_calls rest ipHash m) as [oks m2]. cbn [fst] in *. rewrite IH.
    replace (10 - 10)%nat with 0%nat by lia.
    rewrite !Nat.min_0_r, !Nat.sub_0_r. reflexivity.
  - assert (k < 10)%nat by (unfold MAX_VOTES_PER_WINDOW in E; lia).
    specialize (IH (S k) (<[ipHash := mkLimits (Z.of_nat k + 1) ws]> m)).
    rewrite lookup_insert_eq in IH.
    replace (Z.of_nat k + 1) with (Z.of_nat (S k)) in * by lia.
    specialize (IH eq_refl ltac:(lia) Hrest).
    destruct (allow_calls rest ipHash _) as [oks m2]. cbn [fst] in *. rewrite IH.
    replace (10 - k)%nat with (S (10 - S k)) by lia.
    cbn [length Nat.min Nat.sub replicate app]. reflexivity.
Qed.

(** X4. However many calls an identity makes within one window (up to and
    including exactly one hour after the first), the first ten are allowed and
    all the others refused. *)
Theorem at_most_ten_per_window (now : Z) (ipHash : string) (m : gmap string Limits)
    (rest : list Z) :
  (m !! ipHash = None \/
   exists l, m !! ipHash = Some l /\ now - windowStart l > RATE_LIMIT_WINDOW) ->
  Forall (fun t => t - now <= RATE_LIMIT_WINDOW) rest ->
  (allow_calls (now :: rest) ipHash m).1 =
    replicate (S (length rest) `min` 10) true ++
    replicate (S (length rest) - 10) false.
Proof.
  intros Hstart Hall. cbn [allow_calls].
  assert (checkRateLimit now ipHash m = (true, <[ipHash := mkLimits 1 now]> m)) as ->.
  { destruct Hstart as [Hm|(l & Hm & Hl)];
      eauto using checkRateLimit_fresh, checkRateLimit_expired. }
  pose proof (allow_calls_in_window ipHash now rest 1 (<[ipHash := mkLimits 1 now]> m)
                (lookup_insert_eq _ _ _) ltac:(lia) Hall) as H.
  destruct (allow_calls rest ipHash _) as [oks m2]. cbn [fst] in *. rewrite H.
  reflexivity.
Qed.

Lemma at_most_ten_per_window_example :
  (allow_calls (1700000000000 :: replicate 13 1700003600000) "h1" ∅).1 =
    replicate 10 true ++ replicate 4 false.
Proof.
  apply (at_most_ten_per_window 1700000000000 "h1" ∅ (replicate 13 1700003600000)).
  - left. reflexivity.
  - repeat constructor; vm_compute; discriminate.
Defined.

(** ** The handlers before they reach the store *)




(** X6. A cast-vote request over the limit is answered 429 with
    [retryAfter] 3600 seconds after the clock reading alone: no request goes
    to the store and [rateLimitMap] is as it was. *)
Theorem rate_limited_before_store (hashIP : string -> string) {S} (w : World S)
    (s : S) (req : Request) (blogId : string) (m : gmap string Limits) :
  method req = "POST" ->
  blogId_of req = Some blogId ->
  blogId <> "" ->
  (checkRateLimit (on_now w s).1 (hashIP (realIP req)) m).1 = false ->
  exec w (vote_handler hashIP req m) s =
    (Returned (Json 429 (RateLimited 3600), m), (on_now w s).2, [EvNow (on_now w s).1]).
Proof.
  intros Hm Hb Hne Hrl. unfold vote_handler. rewrite Hm, Hb.
  change (String.eqb "POST" "OPTIONS") with false.
  change (negb (String.eqb "POST" "POST")) with false. cbv iota.
  destruct blogId as [|a blogId]; [congruence|].
  cbn [exec]. destruct (on_now w s) as [now s1]. cbn [fst snd] in *.
  destruct (checkRateLimit now (hashIP (realIP req)) m) as [ok m'] eqn:E.
  cbn [fst] in Hrl. subst ok. cbn [negb exec].
  by rewrite (checkRateLimit_refused _ _ _ _ E).
Qed.

Lemma rate_limited_before_store_example :
  exec github
    (vote_handler (fun ip => ip) (mkRequest "POST" (Some "a1") "h1")
       {["h1" := mkLimits 10 1699999999000]})
    a1_store =
  (Returned (Json 429 (RateLimited 3600), {["h1" := mkLimits 10 1699999999000]}),
   a1_store, [EvNow 1700000000000]).
Proof.
  apply (rate_limited_before_store (fun ip => ip) github a1_store
           (mkRequest "POST" (Some "a1") "h1") "a1").
  - reflexivity.
  - reflexivity.
  - discriminate.
  - vm_compute. reflexivity.
Defined.

(** ** The handlers always answer *)

Lemma always_trivial {R} (p : Prog R) : always p (fun _ _ => True).
Proof.
  induction p as [r|err|path k IH|path c s0 msg k IH|ms k IH|k IH]; simpl; auto.
Qed.

(** A [try] whose [catch] block returns never throws. *)
Lemma always_caught {A} (p : Prog A) (h : Err -> A) :
  always (catch p (fun err => Ret (h err))) (fun _ o => exists b, o = Returned b).
Proof.
  apply always_catch. eapply always_mono; [|apply always_trivial].
  intros tr [a|err] _; simpl; eauto.
Qed.

(** X7. The three handlers never let an exception escape: whatever the store
    answers and whatever the request, each of them ends by sending a
    response. *)
Theorem handlers_always_answer (hashIP : string -> string) {S} (w : World S) (s : S)
    (req : Request) (m : gmap string Limits) :
  (exists res m', outcome_of (exec w (vote_handler hashIP req m) s) = Returned (res, m')) /\
  (exists res, outcome_of (exec w (unvote_handler hashIP req) s) = Returned res) /\
  (exists res, outcome_of (exec w (votes_handler hashIP req) s) = Returned res).
Proof.
  split; [|split].
  - assert (H : always (vote_handler hashIP req m)
                  (fun _ o => exists res m', o = Returned (res, m'))).
    { unfold vote_handler.
      destruct (String.eqb (method req) "OPTIONS"); [simpl; eauto|].
      destruct (negb _); [simpl; eauto|].
      destruct (blogId_of req) as [[|a b]|]; [simpl; eauto| |simpl; eauto].
      cbn [always]. intros now.
      destruct (checkRateLimit now (hashIP (realIP req)) m) as [[|] m'];
        cbn [negb always]; [|eauto].
      apply always_bind. eapply always_mono; [|apply always_caught].
      intros tr [res|err] [b' Hb']; [simpl; eauto|discriminate]. }
    apply (always_exec w _ _ s H).
  - assert (H : always (unvote_handler hashIP req) (fun _ o => exists res, o = Returned res)).
    { unfold unvote_handler.
      destruct (String.eqb (method req) "OPTIONS"); [simpl; eauto|].
      destruct (negb _); [simpl; eauto|].
      destruct (blogId_of req) as [[|a b]|]; [simpl; eauto| |simpl; eauto].
      apply always_caught. }
    apply (always_exec w _ _ s H).
  - assert (H : always (votes_handler hashIP req) (fun _ o => exists res, o = Returned res)).
    { unfold votes_handler.
      destruct (String.eqb (method req) "OPTIONS"); [simpl; eauto|].
      destruct (negb _); [simpl; eauto|].
      apply always_caught. }
    apply (always_exec w _ _ s H).
Qed.

(** ** Errors that end the operation at once *)

Lemma exec_two_reads {S} (w : World S) (s : S) p q :
  exec w (Promise_all (getGitHubFile p) (getGitHubFile q)) s =
    let '(r1, s1) := on_get w p s in
    let '(r2, s2) := on_get w q s1 in
    (match file_of_resp r1, file_of_resp r2 with
     | inl err, _ => Thrown err
     | inr _, inl err => Thrown err
     | inr f1, inr f2 => Returned (f1, f2)
     end, s2, [EvGet p r1; EvGet q r2]).
Proof.
  unfold Promise_all, settle, getGitHubFile. cbn [bind catch exec].
  destruct (on_get w p s) as [r1 s1].
  destruct r1 as [c1 h1|err1]; [|destruct (has_status 404 err1) eqn:E1];
    cbn [bind catch exec file_of_resp]; rewrite ?E1;
    destruct (on_get w q s1) as [r2 s2];
    (destruct r2 as [c2 h2|err2]; [|destruct (has_status 404 err2) eqn:E2]);
    cbn [bind catch exec file_of_resp]; rewrite ?E2; reflexivity.
Qed.

(** X8. An unknown item and a missing Aggregate end a cast-vote or a
    retract-vote at the first attempt, whatever the environment: the operation
    throws 'Blog not found' (or 'Data file not found') after the two reads,
    without a write, a timer or a second attempt. *)
Theorem not_found_is_terminal {S} (w : World S) (s s1 s2 : S)
    (blogId ipHash : string) (r1 : GetResp) (c2 : Content) (sha2 : Sha) :
  on_get w DATA_PATH s = (r1, s1) ->
  on_get w VOTES_PATH s1 = (GotFile c2 sha2, s2) ->
  (forall d sha1, r1 = GotFile (DataJson d) sha1 ->
     find_entry blogId (entries d) = None ->
     exec w (processVote blogId ipHash) s =
       (Thrown (Error "Blog not found"), s2,
        [EvGet DATA_PATH r1; EvGet VOTES_PATH (GotFile c2 sha2)]) /\
     exec w (processUnvote blogId ipHash) s =
       (Thrown (Error "Blog not found"), s2,
        [EvGet DATA_PATH r1; EvGet VOTES_PATH (GotFile c2 sha2)])) /\
  (forall err, r1 = GetFailed err -> has_status 404 err = true ->
     exec w (processVote blogId ipHash) s =
       (Thrown (Error "Data file not found"), s2,
        [EvGet DATA_PATH r1; EvGet VOTES_PATH (GotFile c2 sha2)]) /\
     exec w (processUnvote blogId ipHash) s =
       (Thrown (Error "Data file not found"), s2,
        [EvGet DATA_PATH r1; EvGet VOTES_PATH (GotFile c2 sha2)])).
Proof.
  intros H1 H2. split.
  - intros d sha1 -> Hf. split.
    + apply exec_retry_loop_thrown; [|reflexivity].
      unfold processVote_attempt. rewrite exec_bind, exec_two_reads, H1, H2.
      cbn [file_of_resp content sha]. rewrite Hf. reflexivity.
    + apply exec_retry_loop_thrown; [|reflexivity].
      unfold processUnvote_attempt. rewrite exec_bind, exec_two_reads, H1, H2.
      cbn [file_of_resp content sha]. rewrite Hf. reflexivity.
  - intros err -> E. split.
    + apply exec_retry_loop_thrown; [|reflexivity].
      unfold processVote_attempt. rewrite exec_bind, exec_two_reads, H1, H2.
      cbn [file_of_resp content sha]. rewrite E. reflexivity.
    + apply exec_retry_loop_thrown; [|reflexivity].
      unfold processUnvote_attempt. rewrite exec_bind, exec_two_reads, H1, H2.
      cbn [file_of_resp content sha]. rewrite E. reflexivity.
Qed.

Lemma not_found_is_terminal_example :
  exec github (processVote "zz" "h1") a1_store =
    (Thrown (Error "Blog not found"), a1_store, reads a1_store) /\
  exec github (processUnvote "zz" "h1") a1_store =
    (Thrown (Error "Blog not found"), a1_store, reads a1_store).
Proof.
  destruct (not_found_is_terminal github a1_store a1_store a1_store "zz" "h1"
              (resp_of_file (data_file a1_store)) (VotesJson (mkVotesData ∅)) 4%nat
              eq_refl eq_refl) as [H _].
  apply (H _ _ eq_refl). reflexivity.
Defined.

(** ** How the handlers report what [processVote] did *)

Lemma exec_vote_handler_allowed (hashIP : string -> string) {S} (w : World S) (s : S)
    (req : Request) (blogId : string) (m m' : gmap string Limits) :
  method req = "POST" ->
  blogId_of req = Some blogId ->
  blogId <> "" ->
  checkRateLimit (on_now w s).1 (hashIP (realIP req)) m = (true, m') ->
  exec w (vote_handler hashIP req m) s =
    let '(o, s2, tr) := exec w (processVote blogId (hashIP (realIP req))) (on_now w s).2 in
    (Returned (vote_response o, m'), s2, EvNow (on_now w s).1 :: tr).
Proof.
  intros Hm Hb Hne Hrl. unfold vote_handler. rewrite Hm, Hb.
  change (String.eqb "POST" "OPTIONS") with false.
  change (negb (String.eqb "POST" "POST")) with false. cbv iota.
  destruct blogId as [|a blogId]; [congruence|].
  cbn [exec]. destruct (on_now w s) as [now s1]. cbn [fst snd] in *.
  rewrite Hrl. cbn [negb]. rewrite exec_bind, exec_catch, exec_bind.
  destruct (exec w (processVote (String a blogId) (hashIP (realIP req))) s1)
    as [[[r|err] s2] tr2].
  - destruct r; cbn [exec vote_response]; by rewrite !app_nil_r.
  - cbn [exec vote_response]. by rewrite !app_nil_r.
Qed.

(** X9. A cast-vote for an item the Aggregate does not have is answered 500
    'Failed to process vote' with the details 'Blog not found' (not 404),
    after the clock reading and the two reads; nothing is written, and the
    request has used up one unit of the identity's rate limit. *)
Theorem unknown_item_is_answered_500 (hashIP : string -> string) (st : Store)
    (req : Request) (blogId : string) (m m' : gmap string Limits)
    (d : BlogData) (s1 : Sha) :
  method req = "POST" ->
  blogId_of req = Some blogId ->
  blogId <> "" ->
  checkRateLimit (clock st) (hashIP (realIP req)) m = (true, m') ->
  data_file st = Some (DataJson d, s1) ->
  find_entry blogId (entries d) = None ->
  exec github (vote_handler hashIP req m) st =
    (Returned (Json 500 (ErrorDetails "Failed to process vote" "Blog not found"), m'),
     st, EvNow (clock st) :: reads st) /\
  count <$> m' !! hashIP (realIP req) =
    Some (count (current_window (clock st) (m !! hashIP (realIP req))) + 1).
Proof.
  intros Hm Hb Hne Hrl Hd Hf. split.
  - rewrite (exec_vote_handler_allowed hashIP github st req blogId m m' Hm Hb Hne Hrl).
    cbn [on_now github fst snd]. rewrite exec_processVote. unfold vote_alone.
    rewrite Hd, Hf. reflexivity.
  - rewrite (checkRateLimit_allowed _ _ _ _ Hrl). by rewrite lookup_insert_eq.
Qed.

Lemma unknown_item_is_answered_500_example :
  exec github (vote_handler (fun ip => ip) (mkRequest "POST" (Some "zz") "h1") ∅) a1_store =
    (Returned (Json 500 (ErrorDetails "Failed to process vote" "Blog not found"),
               <["h1" := mkLimits 1 1700000000000]> ∅),
     a1_store, EvNow (clock a1_store) :: reads a1_store).
Proof.
  eapply (unknown_item_is_answered_500 (fun ip => ip) a1_store
            (mkRequest "POST" (Some "zz") "h1") "zz" ∅).
  - reflexivity.
  - reflexivity.
  - discriminate.
  - reflexivity.
  - reflexivity.
  - reflexivity.
Defined.

(** ** Writes that took effect *)

Lemma commits_app path tr tr' :
  commits path (tr ++ tr') = (commits path tr + commits path tr')%nat.
Proof.
  induction tr as [|ev tr IH]; [reflexivity|].
  destruct ev as [| ? ? ? ? [|]| |]; cbn [app commits]; rewrite IH; lia.
Qed.

Lemma updateGitHubFile_left_commits left path c sha0 msg :
  always (updateGitHubFile_left left path c sha0 msg) (fun tr o =>
    forall q, commits q tr =
      match o with
      | Returned _ => if same_path path q then 1%nat else 0%nat
      | Thrown _ => 0%nat
      end).
Proof.
  revert sha0. induction left as [|left IH]; intros sha0;
    cbn [updateGitHubFile_left always]; intros [|err]; cbn [always commits];
    try (intros q; lia); try reflexivity.
  destruct (has_status 409 err); cbn [always commits]; [|reflexivity].
  cbn [getGitHubFile bind always].
  intros [c0 s0|err0]; cbn [bind always].
  - eapply always_mono; [|apply IH]. cbn beta. intros tr o H. exact H.
  - destruct (has_status 404 err0); cbn [bind always commits]; [|reflexivity].
    eapply always_mono; [|apply IH]. cbn beta. intros tr o H. exact H.
Qed.

Lemma two_writes_commit newVotes newData n shaV shaD msgV msgD :
  always
    (await _ := updateGitHubFile VOTES_PATH newVotes shaV msgV 0 in
     await _ := updateGitHubFile DATA_PATH newData shaD msgD 0 in
     Ret (success n))
    (commits_once 1).
Proof.
  apply always_bind.
  eapply always_mono; [|apply updateGitHubFile_left_commits].
  cbn beta. intros trV [[]|err] HV.
  - apply always_bind.
    eapply always_mono; [|apply updateGitHubFile_left_commits].
    cbn beta. intros trD [[]|err] HD.
    + cbn [always]. rewrite app_nil_r. split.
      * rewrite commits_app, (HV DATA_PATH), (HD DATA_PATH). reflexivity.
      * rewrite commits_app, (HV VOTES_PATH), (HD VOTES_PATH). cbn. lia.
    + split.
      * rewrite commits_app, (HV DATA_PATH), (HD DATA_PATH). reflexivity.
      * rewrite commits_app, (HV VOTES_PATH), (HD VOTES_PATH). cbn. lia.
  - split; [rewrite (HV DATA_PATH); reflexivity|rewrite (HV VOTES_PATH); lia].
Qed.

Ltac no_commit_attempt :=
  split; [reflexivity|cbn; lia].

Lemma processVote_attempt_commits blogId ipHash :
  always (processVote_attempt blogId ipHash) (commits_once 1).
Proof.
  unfold processVote_attempt. apply always_bind.
  eapply always_mono; [|apply Promise_all_files]. cbn beta.
  intros tr o (r1 & r2 & -> & ->).
  destruct (file_of_resp r2) as [err2|f2] eqn:E2.
  { destruct (file_of_resp r1); no_commit_attempt. }
  destruct r1 as [c1 s1|err1]; cbn [file_of_resp].
  2:{ destruct (has_status 404 err1); cbn [content always]; no_commit_attempt. }
  cbn [content sha].
  destruct c1 as [d|v1]; cbn [always]; [|no_commit_attempt].
  destruct (find_entry blogId (entries d)) as [[i e]|] eqn:Hfind; cbn [always];
    [|no_commit_attempt].
  destruct (default (VotesJson {| votesOf := ∅ |}) (content f2)) as [d2|v]; cbn [always];
    [no_commit_attempt|].
  destruct (truthy _); cbn [always]; [no_commit_attempt|].
  intros now. eapply always_mono; [|apply two_writes_commit]. cbn beta.
  intros rest o [HD HV]. split; [exact HD|exact HV].
Qed.

Lemma processUnvote_attempt_commits blogId ipHash :
  always (processUnvote_attempt blogId ipHash) (commits_once 1).
Proof.
  unfold processUnvote_attempt. apply always_bind.
  eapply always_mono; [|apply Promise_all_files]. cbn beta.
  intros tr o (r1 & r2 & -> & ->).
  destruct (file_of_resp r2) as [err2|f2] eqn:E2.
  { destruct (file_of_resp r1); no_commit_attempt. }
  destruct r1 as [c1 s1|err1]; cbn [file_of_resp].
  2:{ destruct (has_status 404 err1); cbn [content always]; no_commit_attempt. }
  cbn [content sha].
  destruct (content f2) as [c2|]; cbn [always]; [|no_commit_attempt].
  destruct c1 as [d|v1]; cbn [always]; [|no_commit_attempt].
  destruct (find_entry blogId (entries d)) as [[i e]|] eqn:Hfind; cbn [always];
    [|no_commit_attempt].
  destruct c2 as [d2|v]; cbn [always]; [no_commit_attempt|].
  destruct (negb _); cbn [always]; [no_commit_attempt|].
  eapply always_mono; [|apply two_writes_commit]. cbn beta.
  intros rest o [HD HV]. split; [exact HD|exact HV].
Qed.

Lemma three_attempts_commit tr o :
  three_attempts (commits_once 1) tr o -> commits_once 3 tr o.
Proof.
  intros [[HD HV]|[(t1 & e1 & t2 & -> & [HD1 HV1] & _ & [HD2 HV2])
               |(t1 & e1 & t2 & e2 & t3 & -> & [HD1 HV1] & _ & [HD2 HV2] & _ & [HD3 HV3])]].
  - split; [exact HD|lia].
  - split.
    + rewrite commits_app. cbn [commits]. rewrite HD1, HD2. reflexivity.
    + rewrite commits_app. cbn [commits]. lia.
  - split.
    + rewrite commits_app. cbn [commits]. rewrite commits_app. cbn [commits].
      rewrite HD1, HD2, HD3. reflexivity.
    + rewrite commits_app. cbn [commits]. rewrite commits_app. cbn [commits]. lia.
Qed.

(** X10. Whatever the store answers, a cast-vote or retract-vote operation
    changes the Aggregate at most once: exactly one of its writes of the
    Aggregate is accepted when it returns success, and none when it returns a
    rejection or throws; at most three writes of the Ledger are accepted. *)
Theorem aggregate_written_at_most_once {S} (w : World S) (s : S)
    (blogId ipHash : string) :
  commits_once 3 (trace_of (exec w (processVote blogId ipHash) s))
                 (outcome_of (exec w (processVote blogId ipHash) s)) /\
  commits_once 3 (trace_of (exec w (processUnvote blogId ipHash) s))
                 (outcome_of (exec w (processUnvote blogId ipHash) s)).
Proof.
  split; apply three_attempts_commit.
  - apply (always_exec w _ _ s
             (retry_loop_attempts _ _ _ (processVote_attempt_commits blogId ipHash))).
  - apply (always_exec w _ _ s
             (retry_loop_attempts _ _ _ (processUnvote_attempt_commits blogId ipHash))).
Qed.

(** ** When a conflict is reported *)

Lemma retry_loop_conflict body giveUp (P : list Ev -> Outcome Result -> Prop) :
  always body P ->
  always (retry_loop MAX_RETRIES body giveUp) (fun tr o =>
    forall e, o = Thrown e -> has_status 409 e = true ->
      exists t1 e1 t2 e2 t3,
        tr = t1 ++ EvSleep 1000 :: t2 ++ EvSleep 2000 :: t3 /\
        P t1 (Thrown e1) /\ P t2 (Thrown e2) /\ P t3 (Thrown e)).
Proof.
  intros Hbody. cbn [retry_loop MAX_RETRIES]. unfold MAX_RETRIES.
  change (1000 * Z.of_nat (3 - 2)) with 1000.
  change (1000 * Z.of_nat (3 - 1)) with 2000.
  change (3 - 2 <? 3)%nat with true.
  change (3 - 1 <? 3)%nat with true.
  change (3 - 0 <? 3)%nat with false.
  apply always_catch. eapply always_mono; [|exact Hbody]. cbn beta.
  intros t1 [r|e1] H1; [discriminate|].
  destruct (has_status 409 e1) eqn:E1; cbn [andb always];
    [|intros e [= <-]; congruence].
  apply always_catch. eapply always_mono; [|exact Hbody]. cbn beta.
  intros t2 [r|e2] H2; [discriminate|].
  destruct (has_status 409 e2) eqn:E2; cbn [andb always];
    [|intros e [= <-]; congruence].
  apply always_catch. eapply always_mono; [|exact Hbody]. cbn beta.
  intros t3 [r|e3] H3; [discriminate|].
  rewrite andb_false_r. cbn [always]. rewrite app_nil_r.
  intros e [= <-] _. by exists t1, e1, t2, e2, t3.
Qed.

(** X11. A conflict is reported to the caller only when three attempts have
    been made: whatever the store answers, if a cast-vote or retract-vote
    operation throws an error with status 409, the operation has waited 1000 ms
    and then 2000 ms between its attempts. *)
Theorem conflict_only_after_three_attempts {S} (w : World S) (s : S)
    (blogId ipHash : string) (e : Err) :
  has_status 409 e = true ->
  (outcome_of (exec w (processVote blogId ipHash) s) = Thrown e ->
   backoffs (trace_of (exec w (processVote blogId ipHash) s)) = [1000; 2000]) /\
  (outcome_of (exec w (processUnvote blogId ipHash) s) = Thrown e ->
   backoffs (trace_of (exec w (processUnvote blogId ipHash) s)) = [1000; 2000]).
Proof.
  intros He. split; intros Ho.
  - pose proof (always_exec w _ _ s
      (retry_loop_conflict _ "Failed to process vote after multiple retries" _
         (processVote_attempt_run blogId ipHash))) as H.
    fold (processVote blogId ipHash) in H.
    destruct (H e Ho He) as (t1 & e1 & t2 & e2 & t3 & -> & H1 & H2 & H3).
    apply attempt_run_cost in H1 as (_ & _ & B1).
    apply attempt_run_cost in H2 as (_ & _ & B2).
    apply attempt_run_cost in H3 as (_ & _ & B3).
    rewrite backoffs_app. cbn [backoffs]. rewrite backoffs_app. cbn [backoffs].
    rewrite B1, B2, B3. reflexivity.
  - pose proof (always_exec w _ _ s
      (retry_loop_conflict _ "Failed to process unvote after multiple retries" _
         (processUnvote_attempt_run blogId ipHash))) as H.
    fold (processUnvote blogId ipHash) in H.
    destruct (H e Ho He) as (t1 & e1 & t2 & e2 & t3 & -> & H1 & H2 & H3).
    apply attempt_run_cost in H1 as (_ & _ & B1).
    apply attempt_run_cost in H2 as (_ & _ & B2).
    apply attempt_run_cost in H3 as (_ & _ & B3).
    rewrite backoffs_app. cbn [backoffs]. rewrite backoffs_app. cbn [backoffs].
    rewrite B1, B2, B3. reflexivity.
Qed.

Lemma conflict_only_after_three_attempts_example :
  outcome_of (exec contended (processVote "a1" "h1") a1_store) =
    Thrown (mkErr (Some 409) "Conflict") /\
  backoffs (trace_of (exec contended (processVote "a1" "h1") a1_store)) = [1000; 2000].
Proof.
  assert (H : outcome_of (exec contended (processVote "a1" "h1") a1_store) =
              Thrown (mkErr (Some 409) "Conflict")) by (vm_compute; reflexivity).
  split; [exact H|].
  apply (proj1 (conflict_only_after_three_attempts contended a1_store "a1" "h1"
                  (mkErr (Some 409) "Conflict") eq_refl) H).
Defined.

(** ** What [updateGitHubFile] sends *)

(** X12. Every write request of one [updateGitHubFile] call carries the
    content the call was given and goes to its path, whatever the reads of the
    fresh sha returned in between; the call only reads that path and only waits
    500 ms at a time; and it returns exactly when one write, the last, was
    accepted: when it throws, none was. *)
Theorem updateGitHubFile_resends_its_content {S} (w : World S) (s : S)
    (path : Path) (c : Content) (sha0 : option Sha) (msg : string) :
  Forall (fun ev =>
    match ev with
    | EvPut path' c' _ _ _ => path' = path /\ c' = c
    | EvGet path' _ => path' = path
    | EvSleep ms => ms = 500
    | EvNow _ => False
    end) (trace_of (exec w (updateGitHubFile path c sha0 msg 0) s)) /\
  commits path (trace_of (exec w (updateGitHubFile path c sha0 msg 0) s)) =
    match outcome_of (exec w (updateGitHubFile path c sha0 msg 0) s) with
    | Returned _ => 1%nat
    | Thrown _ => 0%nat
    end.
Proof.
  split.
  - apply (always_exec w _ _ s (updateGitHubFile_trace path c sha0 msg)).
  - pose proof (always_exec w _ _ s
      (updateGitHubFile_left_commits (MAX_RETRIES - 0) path c sha0 msg) path) as H.
    fold (updateGitHubFile path c sha0 msg 0) in H. rewrite H.
    destruct (outcome_of _); [|reflexivity]. by destruct path.
Qed.

(** ** One caller, one call after the other *)

(** X13. Retract-vote by an identity that has no entry under the item, with
    both documents in place, answers [notVoted] after the two reads and leaves
    the store as it is. *)
Theorem retract_without_vote_is_rejected (blogId ipHash : string) (st : Store)
    (d : BlogData) (v : VotesData) (s1 s2 : Sha) (i : nat) (e : Entry) :
  data_file st = Some (DataJson d, s1) ->
  votes_file st = Some (VotesJson v, s2) ->
  find_entry blogId (entries d) = Some (i, e) ->
  ledger_lookup (votesOf v) blogId ipHash = None ->
  exec github (processUnvote blogId ipHash) st = (Returned notVoted, st, reads st) /\
  puts (reads st) = 0%nat.
Proof.
  intros Hd Hv Hf Hl. rewrite exec_processUnvote. unfold unvote_alone.
  rewrite Hd, Hv, Hf, Hl. split; [reflexivity|]. unfold reads. by rewrite Hd, Hv.
Qed.

Lemma retract_without_vote_is_rejected_example :
  exec github (processUnvote "a1" "h1") a1_store =
    (Returned notVoted, a1_store, reads a1_store) /\
  puts (reads a1_store) = 0%nat.
Proof.
  eapply (retract_without_vote_is_rejected "a1" "h1" a1_store); reflexivity.
Defined.








(** ** The Ledger written, the Aggregate not *)







(** ** The earlier [vote.js] *)

Lemma exec_two_writes_once (st : Store) cV cD msgV msgD :
  exec github
    (Promise_all
       (updateGitHubFile_once VOTES_PATH cV (sha (file_read (votes_file st))) msgV)
       (updateGitHubFile_once DATA_PATH cD (sha (file_read (data_file st))) msgD)) st =
  (Returned (tt, tt),
   match data_file st with
   | Some (_, s1) =>
       mkStore (Some (cD, S s1)) (Some (cV, next_sha (votes_file st))) (clock st)
   | None => mkStore (Some (cD, O)) (Some (cV, next_sha (votes_file st))) (clock st)
   end,
   [EvPut VOTES_PATH cV (sha (file_read (votes_file st))) msgV PutDone;
    EvPut DATA_PATH cD (sha (file_read (data_file st))) msgD PutDone]).
Proof.
  destruct st as [[[c1 s1]|] [[c2 s2]|] t];
    unfold Promise_all, settle, updateGitHubFile_once;
    cbn [bind catch exec on_put github store_put file_at data_file votes_file
         file_read sha set_file clock next_sha];
    rewrite ?decide_True by reflexivity;
    cbn [bind catch exec on_put github store_put file_at data_file votes_file
         file_read sha set_file clock next_sha];
    rewrite ?decide_True by reflexivity; reflexivity.
Qed.

Lemma exec_vote_early_body blogId ipHash st :
  exec github (vote_early_body blogId ipHash) st = early_alone blogId ipHash st.
Proof.
  unfold vote_early_body, early_alone. rewrite exec_bind, exec_read_both.
  destruct st as [df vf t]. cbn [data_file votes_file clock].
  destruct df as [[[d|v1] s1]|]; cbn [file_read content sha exec]; try reflexivity.
  destruct (find_entry blogId (entries d)) as [[i e]|]; cbn [exec]; [|reflexivity].
  destruct vf as [[[d2|v] s2]|];
    cbn [file_read content sha exec default from_option Datatypes.id]; try reflexivity.
  - unfold stored_ledger. cbn [votes_file]. rewrite ledger_lookup_default.
    destruct (truthy _); cbn [exec]; [reflexivity|].
    cbn [on_now github clock]. rewrite exec_bind.
    rewrite (exec_two_writes_once (mkStore (Some (DataJson d, s1)) (Some (VotesJson v, s2)) t)).
    reflexivity.
  - unfold stored_ledger. cbn [votes_file votesOf]. rewrite ledger_lookup_default.
    destruct (truthy _); cbn [exec]; [reflexivity|].
    cbn [on_now github clock]. rewrite exec_bind.
    rewrite (exec_two_writes_once (mkStore (Some (DataJson d, s1)) None t)).
    reflexivity.
Qed.

Ltac agree_case :=
  split; [reflexivity|]; split; [reflexivity|];
  split; [eexists _, _, _; split; reflexivity|];
  intros n0 m0; split; intros H; inversion H; subst; reflexivity.

(** X17. On a store nobody else writes to, the earlier and the later
    [vote.js] handler do the same thing for every request: they send the same
    requests, leave the store and [rateLimitMap] in the same state, and one
    answers 200 with a count exactly when the other does, with the same
    count. *)
Theorem early_and_late_handler_agree (hashIP : string -> string) (st : Store)
    (req : Request) (m : gmap string Limits) :
  state_of (exec github (vote_handler_early hashIP req m) st) =
    state_of (exec github (vote_handler hashIP req m) st) /\
  trace_of (exec github (vote_handler_early hashIP req m) st) =
    trace_of (exec github (vote_handler hashIP req m) st) /\
  (exists r1 r2 m',
     outcome_of (exec github (vote_handler_early hashIP req m) st) = Returned (r1, m') /\
     outcome_of (exec github (vote_handler hashIP req m) st) = Returned (r2, m')) /\
  (forall n m',
     outcome_of (exec github (vote_handler_early hashIP req m) st) =
       Returned (Sent (Json 200 (ResultBody (success n))), m') <->
     outcome_of (exec github (vote_handler hashIP req m) st) =
       Returned (Json 200 (ResultBody (success n)), m')).
Proof.
  unfold vote_handler_early, vote_handler.
  destruct (String.eqb (method req) "OPTIONS"); [agree_case|].
  destruct (negb _); [agree_case|].
  destruct (blogId_of req) as [[|a b]|]; [agree_case| |agree_case].
  cbn [exec on_now github].
  destruct (checkRateLimit (clock st) (hashIP (realIP req)) m) as [[|] m'];
    cbn [negb]; [|agree_case].
  rewrite !exec_bind, !exec_catch, exec_bind, exec_vote_early_body, exec_processVote.
  unfold early_alone, vote_alone.
  destruct (data_file st) as [[[d|v1] s1]|]; [| |agree_case]; [|agree_case].
  destruct (find_entry (String a b) (entries d)) as [[i e]|]; [|agree_case].
  destruct (votes_file st) as [[[d2|v] s2]|]; [agree_case| |];
    (destruct (truthy _); agree_case).
Qed.

(** X18. The earlier handler answered a cast-vote for an item the Aggregate
    does not have with 404 'Blog not found', after the clock reading and the
    two reads and without writing; the request used up one unit of the rate
    limit all the same. *)
Theorem unknown_item_was_answered_404 (hashIP : string -> string) (st : Store)
    (req : Request) (blogId : string) (m m' : gmap string Limits)
    (d : BlogData) (s1 : Sha) :
  method req = "POST" ->
  blogId_of req = Some blogId ->
  blogId <> "" ->
  checkRateLimit (clock st) (hashIP (realIP req)) m = (true, m') ->
  data_file st = Some (DataJson d, s1) ->
  find_entry blogId (entries d) = None ->
  exec github (vote_handler_early hashIP req m) st =
    (Returned (Sent (Json 404 (ErrorBody "Blog not found")), m'),
     st, EvNow (clock st) :: reads st).
Proof.
  intros Hm Hb Hne Hrl Hd Hf. unfold vote_handler_early. rewrite Hm, Hb.
  change (String.eqb "POST" "OPTIONS") with false.
  change (negb (String.eqb "POST" "POST")) with false. cbv iota.
  destruct blogId as [|a b]; [congruence|].
  cbn [exec on_now github]. rewrite Hrl. cbn [negb].
  rewrite exec_bind, exec_catch, exec_vote_early_body. unfold early_alone.
  rewrite Hd, Hf. cbn [exec]. by rewrite !app_nil_r.
Qed.

Lemma unknown_item_was_answered_404_example :
  exec github
    (vote_handler_early (fun ip => ip) (mkRequest "POST" (Some "zz") "h1") ∅) a1_store =
    (Returned (Sent (Json 404 (ErrorBody "Blog not found")),
               <["h1" := mkLimits 1 1700000000000]> ∅),
     a1_store, EvNow (clock a1_store) :: reads a1_store).
Proof.
  eapply (unknown_item_was_answered_404 (fun ip => ip) a1_store
            (mkRequest "POST" (Some "zz") "h1") "zz" ∅).
  - reflexivity.
  - reflexivity.
  - discriminate.
  - reflexivity.
  - reflexivity.
  - reflexivity.
Defined.

Lemma vote_early_body_no_retry blogId ipHash :
  always (vote_early_body blogId ipHash) (fun tr _ => no_retry tr).
Proof.
  unfold vote_early_body. apply always_bind.
  eapply always_mono; [|apply Promise_all_files]. cbn beta.
  intros tr o (r1 & r2 & -> & ->).
  assert (H0 : no_retry [EvGet DATA_PATH r1; EvGet VOTES_PATH r2]).
  { split; [by left|repeat constructor]. }
  destruct (file_of_resp r2) as [err2|f2] eqn:E2.
  { destruct (file_of_resp r1); exact H0. }
  destruct r1 as [c1 s1|err1]; cbn [file_of_resp].
  2:{ destruct (has_status 404 err1); cbn [content always]; exact H0. }
  cbn [content sha].
  destruct c1 as [d|v1]; cbn [always]; [|exact H0].
  destruct (find_entry blogId (entries d)) as [[i e]|] eqn:Hfind; cbn [always];
    [|exact H0].
  destruct (default (VotesJson {| votesOf := ∅ |}) (content f2)) as [d2|v]; cbn [always];
    [exact H0|].
  destruct (truthy _); cbn [always]; [exact H0|].
  intros now. unfold Promise_all, settle, updateGitHubFile_once.
  cbn [bind catch always].
  intros [|e1]; cbn [bind catch always]; intros [|e2]; cbn [bind catch always];
    (split; [by right|repeat constructor]).
Qed.

(** X19. Whatever the store answers, the earlier handler never retried: it
    sent either no write at all or exactly one write for each of the two
    documents (the second even when the first was refused), waited for no
    timer, and always answered. *)
Theorem early_handler_never_retried (hashIP : string -> string) {S} (w : World S)
    (s : S) (req : Request) (m : gmap string Limits) :
  no_retry (trace_of (exec w (vote_handler_early hashIP req m) s)) /\
  exists res m',
    outcome_of (exec w (vote_handler_early hashIP req m) s) = Returned (res, m').
Proof.
  assert (H : always (vote_handler_early hashIP req m) (fun tr o =>
    no_retry tr /\ exists res m', o = Returned (res, m'))).
  { assert (H0 : no_retry []) by (split; [by left|constructor]).
    unfold vote_handler_early.
    destruct (String.eqb (method req) "OPTIONS"); [simpl; eauto|].
    destruct (negb _); [simpl; eauto|].
    destruct (blogId_of req) as [[|a b]|]; [simpl; eauto| |simpl; eauto].
    cbn [always]. intros now.
    assert (H1 : no_retry [EvNow now]) by (split; [by left|repeat constructor]).
    destruct (checkRateLimit now (hashIP (realIP req)) m) as [[|] m'];
      cbn [negb always]; [|eauto].
    apply always_bind, always_catch.
    eapply always_mono; [|apply vote_early_body_no_retry]. cbn beta.
    intros tr [res|err] [Hp Hs]; cbn [always]; rewrite !app_nil_r;
      (split; [split; [exact Hp|by constructor]|eauto]). }
  apply (always_exec w _ _ s H).
Qed.
